(** * The Dash component tree: navigation, traversal, serialisation and
      resource collection

    A shallow embedding of [dash/development/base_component.py]
    ([ComponentRegistry], [ComponentMeta], [Component], and the metadata
    helpers [parse_wildcards], [reorder_props], [filter_props]) and of
    [Resources.get_inferred_resources] from [dash/resources.py], with the
    properties of the tree model proved over it.

    Conventions of the embedding:
    - a Python value that can sit in a [children] slot is a [pyval];
      a [Component] instance is a record of the attributes the code reads;
    - the layout is a tree (each component owns its children), so in-place
      mutation of a descendant is rendered by passing the updated subtree
      back to its owner;
    - an operation that can raise returns its result together with the state
      it leaves behind, also when it raises; a generator is the list of
      what it yields, with the exception that ends it, if any;
    - the ids that the navigator is asked for are strings; the [id] of a
      component is any value;
    - where Python leaves a choice to the interpreter (the order in which
      a set is iterated), the choice is an argument of the function. *)

From Stdlib Require Import Ascii.
From stdpp Require Import gmap strings list fin_maps pretty.

(** * Part I: the embedding of the code *)

(** ** Data model *)

Module Py.

(** Exceptions the modelled code can raise.  [KeyError None] is the bare
    [raise KeyError] of the structure check, [KeyError (Some k)] is
    [raise KeyError(k)]. *)
Inductive exn : Type :=
| KeyError (arg : option string)
| TypeError
| ValueError.

Inductive exn_class : Type := KeyErrorT | TypeErrorT | ValueErrorT.

Definition class_of (e : exn) : exn_class :=
  match e with
  | KeyError _ => KeyErrorT
  | TypeError => TypeErrorT
  | ValueError => ValueErrorT
  end.

Definition result (A : Type) : Type := A + exn.

(** A generator run to its end: the items it yields, in order, and the
    exception that ends it, if one does. *)
Definition generator (A : Type) : Type := list A * option exn.

(** [list(g)] *)
Definition list_of {A : Type} (g : generator A) : result (list A) :=
  match g.2 with
  | None => inl g.1
  | Some e => inr e
  end.

End Py.
Import Py.

#[local] Unset Elimination Schemes.

(** [pyval]: what a [children] slot or a sequence entry may hold.
    [VUndefined] is the [Component.UNDEFINED] sentinel object.
    [Component]: the attributes of one instance.  [attr_id] and [children]
    are [None] when the attribute is not set on the instance;
    [attr_id = Some VNone] is an [id] set to Python [None].  An [id] can
    hold any value: the constructor stores what it is given.
    [attrs] holds the other instance attributes in insertion order and
    [dists] the resource lists ([_js_dist], [_css_dist]) reachable from the
    instance, as references into a store of resource dicts. *)
Inductive pyval : Type :=
| VNone
| VUndefined
| VStr (s : string)
| VNum (n : Z)
| VComp (c : Component)
| VList (l : list pyval)
| VTuple (l : list pyval)
with Component : Type :=
| mkComponent (_type _namespace : string)
    (_prop_names _valid_wildcard_attributes : list string)
    (attr_id : option pyval)
    (children : option pyval)
    (attrs : list (string * pyval))
    (dists : list (string * list nat)).

#[local] Set Elimination Schemes.

Definition _type (c : Component) : string :=
  match c with mkComponent t _ _ _ _ _ _ _ => t end.
Definition _namespace (c : Component) : string :=
  match c with mkComponent _ n _ _ _ _ _ _ => n end.
Definition _prop_names (c : Component) : list string :=
  match c with mkComponent _ _ p _ _ _ _ _ => p end.
Definition _valid_wildcard_attributes (c : Component) : list string :=
  match c with mkComponent _ _ _ w _ _ _ _ => w end.
Definition attr_id (c : Component) : option pyval :=
  match c with mkComponent _ _ _ _ i _ _ _ => i end.
Definition children (c : Component) : option pyval :=
  match c with mkComponent _ _ _ _ _ ch _ _ => ch end.
Definition attrs (c : Component) : list (string * pyval) :=
  match c with mkComponent _ _ _ _ _ _ p _ => p end.
Definition dists (c : Component) : list (string * list nat) :=
  match c with mkComponent _ _ _ _ _ _ _ d => d end.

(** [self.children = v] *)
Definition set_children (c : Component) (v : option pyval) : Component :=
  match c with
  | mkComponent t n p w i _ ps d => mkComponent t n p w i v ps d
  end.

(** ** [Component.__len__] *)

Fixpoint __len__ (self : Component) : nat :=
  match children self with
  | None | Some VNone => 0
  | Some (VComp ch) => 1 + __len__ ch
  | Some (VList l) | Some (VTuple l) =>
      (fix loop (l : list pyval) (length : nat) : nat :=
         match l with
         | [] => length
         | c :: rest =>
             let length := length + 1 in
             match c with
             | VComp cc => loop rest (length + __len__ cc)
             | _ => loop rest length
             end
         end) l 0
  | Some _ => 1
  end.

(** ** Traversal: [traverse_with_paths], [traverse], [__iter__] *)

(** [type(v).__name__]; a generated class is named after its [_type]. *)
Definition type_name (v : pyval) : string :=
  match v with
  | VNone => "NoneType"
  | VUndefined => "_UNDEFINED"
  | VStr _ => "str"
  | VNum _ => "int"
  | VComp c => _type c
  | VList _ => "list"
  | VTuple _ => "tuple"
  end.

(** [bool(v)]: a component is a sized container, true when its length is
    not zero. *)
Definition truthy (v : pyval) : bool :=
  match v with
  | VNone => false
  | VUndefined => true
  | VStr s => negb (bool_decide (s = ""))
  | VNum n => negb (bool_decide (n = 0%Z))
  | VComp c => negb (bool_decide (__len__ c = 0))
  | VList [] | VTuple [] => false
  | VList _ | VTuple _ => true
  end.

(** ["{:s}".format(v)]: a number refuses the format code, and an object
    without a format of its own refuses any format string (Python 3). *)
Definition format_s (v : pyval) : result string :=
  match v with
  | VStr s => inl s
  | VNum _ => inr ValueError
  | _ => inr TypeError
  end.

(** ["(id={:s})".format(v.id) if getattr(v, 'id', False) else '']:
    only a component has an [id]. *)
Definition id_label (v : pyval) : result string :=
  match v with
  | VComp c =>
      match attr_id c with
      | Some id =>
          if truthy id then
            match format_s id with
            | inl s => inl ("(id=" +:+ s +:+ ")")
            | inr e => inr e
            end
          else inl ""
      | None => inl ""
      end
  | _ => inl ""
  end.

Definition newline : string := String "010"%char "".

(** The generator yields each item with its path; the label of an item is
    formatted before the item is yielded, that of a single child when the
    generator starts. *)
Fixpoint traverse_with_paths (self : Component)
  : generator (string * pyval) :=
  let children_value := default VNone (children self) in
  match id_label children_value with
  | inr e => ([], Some e)
  | inl children_id =>
      let children_string :=
        type_name children_value +:+ " " +:+ children_id in
      match children self with
      | Some (VComp ch) =>
          let (below, stop) := traverse_with_paths ch in
          (("[*] " +:+ children_string, VComp ch)
             :: map (fun pt =>
                       ("[*] " +:+ children_string +:+ newline +:+ pt.1,
                        pt.2)) below,
           stop)
      | Some (VList l) | Some (VTuple l) =>
          (fix loop (l : list pyval) (idx : nat)
             : generator (string * pyval) :=
             match l with
             | [] => ([], None)
             | i :: rest =>
                 match id_label i with
                 | inr e => ([], Some e)
                 | inl i_id =>
                     let list_path :=
                       "[" +:+ pretty idx +:+ "] " +:+ type_name i +:+ " "
                       +:+ i_id in
                     let (below, stop) :=
                       match i with
                       | VComp ci => traverse_with_paths ci
                       | _ => ([], None)
                       end in
                     let yielded :=
                       (list_path, i)
                         :: map (fun pt =>
                                   (list_path +:+ newline +:+ pt.1, pt.2))
                              below in
                     match stop with
                     | Some e => (yielded, Some e)
                     | None =>
                         let (more, stop) := loop rest (S idx) in
                         (yielded ++ more, stop)
                     end
                 end
             end) l 0
      | _ => ([], None)
      end
  end.

Definition traverse (self : Component) : generator pyval :=
  let (items, stop) := traverse_with_paths self in
  (map snd items, stop).

(** [getattr(c, 'id', None)] as the navigator compares it with the id it
    looks for, a string: a value that is not a string equals none. *)
Definition get_id (c : Component) : option string :=
  match attr_id c with
  | Some (VStr s) => Some s
  | _ => None
  end.

Definition __iter__ (self : Component) : generator pyval :=
  let (items, stop) := traverse self in
  (flat_map (fun t =>
               match t with
               | VComp c =>
                   match attr_id c with
                   | None | Some VNone => []
                   | Some id => [id]
                   end
               | _ => []
               end) items,
   stop).

(** ** The navigator: [_get_set_or_delete] *)

(** The [operation] argument: ['get'], ['set'], ['delete']. *)
Inductive operation : Type := Get | Set_item | Delete.

Definition _check_if_has_indexable_children (item : Component)
  : result unit :=
  match children item with
  | None => inr (KeyError None)
  | Some (VComp _) | Some (VList _) | Some (VTuple _) => inl tt
  | Some _ => inr (KeyError None)
  end.

(** [getattr(item, 'id', None)] on any entry: only a component has one. *)
Definition item_id (item : pyval) : option string :=
  match item with
  | VComp c => get_id c
  | _ => None
  end.

(** [self.children[i] = new_item]: a tuple does not support item
    assignment. *)
Definition setitem_children (self : Component) (i : nat) (new_item : pyval)
  : result pyval * Component :=
  match children self with
  | Some (VList l) =>
      (inl VNone, set_children self (Some (VList (<[i:=new_item]> l))))
  | _ => (inr TypeError, self)
  end.

(** [del self.children[i]]: a tuple does not support item deletion. *)
Definition delitem_children (self : Component) (i : nat)
  : result pyval * Component :=
  match children self with
  | Some (VList l) =>
      (inl VNone, set_children self (Some (VList (delete i l))))
  | _ => (inr TypeError, self)
  end.

(** The entry at index [i] of [self.children] was mutated in place and is
    now [v]. *)
Definition store_entry (self : Component) (i : nat) (v : pyval) : Component :=
  match children self with
  | Some (VList l) => set_children self (Some (VList (<[i:=v]> l)))
  | Some (VTuple l) => set_children self (Some (VTuple (<[i:=v]> l)))
  | _ => self
  end.

(** The loop [for i, item in enumerate(self.children)] and the final
    [raise KeyError(id)].  [descend] is the recursive call on an entry that
    is a component; an entry it mutated in place is seen through
    [self.children[i]]. *)
Definition search_sequence
    (descend : Component -> result pyval * Component)
    (id : string) (operation : operation) (new_item : pyval)
  : list pyval -> nat -> Component -> result pyval * Component :=
  fix loop (todo : list pyval) (i : nat) (self : Component) {struct todo} :=
    match todo with
    | [] =>
        (* The end of our branch *)
        (inr (KeyError (Some id)), self)
    | item :: rest =>
        if decide (item_id item = Some id) then
          match operation with
          | Get => (inl item, self)
          | Set_item => setitem_children self i new_item
          | Delete => delitem_children self i
          end
        else
          match item with
          | VComp ci =>
              let (r, ci') := descend ci in
              let self := store_entry self i (VComp ci') in
              match r with
              | inr (KeyError _) => loop rest (S i) self
              | _ => (r, self)
              end
          | _ => loop rest (S i) self
          end
    end.

(** Returns what the call returns or raises, and [self] as the call leaves
    it.  [set] and [delete] return [None]. *)
Fixpoint _get_set_or_delete (self : Component) (id : string)
    (operation : operation) (new_item : pyval) {struct self}
  : result pyval * Component :=
  match _check_if_has_indexable_children self with
  | inr e => (inr e, self)
  | inl _ =>
      match children self with
      | Some (VComp ch) =>
          if decide (get_id ch = Some id) then
            (* Woohoo! It's the item that we're looking for *)
            match operation with
            | Get => (inl (VComp ch), self)
            | Set_item => (inl VNone, set_children self (Some new_item))
            | Delete => (inl VNone, set_children self (Some VNone))
            end
          else
            (* Recursively dig into its subtree *)
            let (r, ch') := _get_set_or_delete ch id operation new_item in
            let self := set_children self (Some (VComp ch')) in
            match r with
            | inr (KeyError _) =>
                (* children is not like a list: the end of our branch *)
                (inr (KeyError (Some id)), self)
            | _ => (r, self)
            end
      | Some (VList l) | Some (VTuple l) =>
          search_sequence
            (fun item => _get_set_or_delete item id operation new_item)
            id operation new_item l 0 self
      | _ => (inr (KeyError (Some id)), self)
      end
  end.

Definition __getitem__ (self : Component) (id : string)
  : result pyval * Component :=
  _get_set_or_delete self id Get VNone.

Definition __setitem__ (self : Component) (id : string) (item : pyval)
  : result pyval * Component :=
  _get_set_or_delete self id Set_item item.

Definition __delitem__ (self : Component) (id : string)
  : result pyval * Component :=
  _get_set_or_delete self id Delete VNone.

(** ** [Component.to_plotly_json] *)

(** The instance dictionary: the attributes the generated constructor sets
    from the metadata of the class, then the properties passed to it.
    ([available_events], which the model does not derive, is among
    [attrs].) *)
Definition __dict__ (self : Component) : list (string * pyval) :=
  [("_prop_names", VList (VStr <$> _prop_names self));
   ("_type", VStr (_type self));
   ("_namespace", VStr (_namespace self));
   ("_valid_wildcard_attributes",
     VList (VStr <$> _valid_wildcard_attributes self));
   ("available_properties", VList (VStr <$> _prop_names self));
   ("available_wildcard_properties",
     VList (VStr <$> _valid_wildcard_attributes self))]
  ++ match children self with
     | Some v => [("children", v)]
     | None => []
     end
  ++ match attr_id self with
     | Some id => [("id", id)]
     | None => []
     end
  ++ attrs self.

(** The names that an instance finds on its class when it has no such
    attribute of its own: what class [Component] defines, and what it
    inherits from [collections.MutableMapping] and from [object] (as
    CPython 3.9 has them).  The generated classes add no name of their
    own. *)
Definition class_attributes : list string :=
  ["REQUIRED"; "UNDEFINED"; "_REQUIRED"; "_UNDEFINED";
   "_get_set_or_delete"; "to_plotly_json"; "traverse";
   "traverse_with_paths";
   "clear"; "get"; "items"; "keys"; "pop"; "popitem"; "setdefault";
   "update"; "values"; "_MutableMapping__marker"; "_abc_impl";
   "__abstractmethods__"; "__class_getitem__"; "__contains__";
   "__delattr__"; "__delitem__"; "__dir__"; "__doc__"; "__eq__";
   "__format__"; "__ge__"; "__getattribute__"; "__getitem__"; "__gt__";
   "__hash__"; "__init__"; "__init_subclass__"; "__iter__"; "__le__";
   "__len__"; "__lt__"; "__module__"; "__ne__"; "__new__"; "__reduce__";
   "__reduce_ex__"; "__repr__"; "__reversed__"; "__setattr__";
   "__setitem__"; "__sizeof__"; "__slots__"; "__str__";
   "__subclasshook__"].

(** The names under which the class answers before the instance
    dictionary is looked at. *)
Definition data_descriptors : list string :=
  ["__class__"; "__dict__"; "__weakref__"].

(** What [getattr] returns: a value of the tree model, or an object that
    the class holds under a name (a bound method, a nested class, a
    resource list, ...), which the serialiser passes on as it is. *)
Inductive attribute : Type :=
| Value (v : pyval)
| ClassObject (name : string).

(** [getattr(self, p)], [None] when [hasattr(self, p)] is false: the
    instance dictionary first, then the class. *)
Definition getattr (self : Component) (p : string) : option attribute :=
  if decide (p ∈ data_descriptors) then Some (ClassObject p)
  else
    match (list_to_map (__dict__ self) : gmap string pyval) !! p with
    | Some v => Some (Value v)
    | None =>
        if decide (p = "UNDEFINED") then Some (Value VUndefined)
        else if decide (p ∈ class_attributes ++ (dists self).*1)
             then Some (ClassObject p)
             else None
    end.

Definition hasattr (self : Component) (p : string) : bool :=
  bool_decide (is_Some (getattr self p)).

Record plotly_json : Type := mk_plotly_json {
  props : gmap string attribute;
  type : string;
  namespace : string
}.

(** [any(k.startswith(w) for w in self._valid_wildcard_attributes)] *)
Definition is_wildcard (self : Component) (k : string) : bool :=
  existsb (fun w => String.prefix w k) (_valid_wildcard_attributes self).

Definition to_plotly_json (self : Component) : plotly_json :=
  (* Add normal properties *)
  let props : gmap string attribute :=
    foldl (fun d p =>
             if hasattr self p then
               match getattr self p with
               | Some v => <[p := v]> d
               | None => d
               end
             else d) ∅ (_prop_names self) in
  (* Add the wildcard properties data-* and aria-* *)
  let wildcard : gmap string attribute :=
    foldl (fun d kv =>
             if is_wildcard self kv.1 then
               match getattr self kv.1 with
               | Some v => <[kv.1 := v]> d
               | None => d
               end
             else d) ∅ (__dict__ self) in
  (* props.update(...) *)
  let props := wildcard ∪ props in
  {| props := props; type := _type self; namespace := _namespace self |}.

(** ** [Resources.get_inferred_resources] *)

(** A resource is a dict, held by reference: the lists hanging off the
    component classes and the list the extractor returns share the dict
    objects, and tagging writes into them. *)
Definition resource : Type := gmap string string.
Definition store : Type := nat -> resource.

(** [r['namespace'] = ns] on the dict behind reference [r]. *)
Definition tag (ns : string) (h : store) (r : nat) : store :=
  fun r' => if decide (r' = r) then <["namespace" := ns]> (h r) else h r'.

(** [getattr(component, name)] for a resource list such as [_js_dist];
    [None] when [hasattr] is false. *)
Definition getattr_dist (component : Component) (name : string)
  : option (list nat) :=
  (list_to_map (dists component) : gmap string (list nat)) !! name.

Record Resources : Type := mk_Resources {
  _resources : list nat;
  resource_name : string;
  layout : Component
}.

(** The closure state: the local lists [namespaces] and [resources], and
    the store of resource dicts. *)
Record extraction : Type := mk_extraction {
  namespaces : list string;
  resources : list nat;
  dicts : store
}.

Definition extract_resource_from_component (self : Resources)
    (st : extraction) (component : pyval) : extraction :=
  match component with
  | VComp c =>
      if decide (_namespace c ∈ namespaces st) then st
      else
        let namespaces := namespaces st ++ [_namespace c] in
        match getattr_dist c (resource_name self) with
        | Some component_resources =>
            {| namespaces := namespaces;
               resources := resources st ++ component_resources;
               dicts := foldl (tag (_namespace c)) (dicts st)
                          component_resources |}
        | None =>
            {| namespaces := namespaces;
               resources := resources st;
               dicts := dicts st |}
        end
  | _ => st
  end.

(** Returns what the call returns or raises, and the store of dicts as
    the call leaves it: the components that the traversal yields before
    it raises have been looked at. *)
Definition get_inferred_resources (self : Resources) (h : store)
  : result (list nat) * store :=
  let st := {| namespaces := []; resources := []; dicts := h |} in
  let st := extract_resource_from_component self st (VComp (layout self)) in
  let (items, stop) := traverse (layout self) in
  let st := foldl (extract_resource_from_component self) st items in
  (match stop with
   | None => inl (resources st)
   | Some e => inr e
   end, dicts st).

(** ** [ComponentRegistry] and [ComponentMeta] *)

Module ComponentRegistry.

(** The class attributes [registry] and [__dist_cache], and the
    interpreter's [sys.modules]: each loaded module with its resource
    lists by attribute name. *)
Record state : Type := mk_state {
  registry : gset string;
  __dist_cache : gmap string (list nat);
  sys_modules : gmap string (gmap string (list nat))
}.

Definition set_cache (s : state) (c : gmap string (list nat)) : state :=
  {| registry := registry s; __dist_cache := c;
     sys_modules := sys_modules s |}.

(** The loop [for module_name in cls.registry]; [resources] is the list
    object stored in the cache under [resource_name], extended in
    place.  [sys.modules[module_name]] raises on an unknown module. *)
Fixpoint extend_from (resource_name : string) (todo : list string)
    (s : state) : result (list nat) * state :=
  match todo with
  | [] => (inl (default [] (__dist_cache s !! resource_name)), s)
  | module_name :: rest =>
      match sys_modules s !! module_name with
      | None => (inr (KeyError (Some module_name)), s)
      | Some module =>
          let resources := default [] (__dist_cache s !! resource_name) in
          let resources :=
            resources ++ default [] (module !! resource_name) in
          extend_from resource_name rest
            (set_cache s (<[resource_name := resources]> (__dist_cache s)))
      end
  end.

(** The body of [get_resources] after the test of the cache.  The
    registry is a set: the order in which [for module_name in
    cls.registry] visits its names is fixed by Python (by the hashes of
    the names and the history of the set), not by the code.  [order] is
    that order for this run of the loop, a listing of [registry s]. *)
Definition compute_resources (resource_name : string) (order : list string)
    (s : state) : result (list nat) * state :=
  let s := set_cache s (<[resource_name := []]> (__dist_cache s)) in
  extend_from resource_name order s.

Definition get_resources (resource_name : string) (order : list string)
    (s : state) : result (list nat) * state :=
  match __dist_cache s !! resource_name with
  | Some (r :: cached) => (inl (r :: cached), s)
  | _ => compute_resources resource_name order s
  end.

End ComponentRegistry.

Module ComponentMeta.
Import ComponentRegistry.

(** [s.split('.')[0]] *)
Fixpoint before_dot (s : string) : string :=
  match s with
  | EmptyString => EmptyString
  | String c rest =>
      if decide (c = "."%char) then EmptyString
      else String c (before_dot rest)
  end.

(** [ComponentMeta.__new__(mcs, name, bases, attributes)], as far as the
    registry goes; [__module__] is [attributes['__module__']]. *)
Definition __new__ (name : string) (__module__ : string) (s : state)
  : state :=
  let module := before_dot __module__ in
  if decide (name = "Component" \/ module = "builtins") then s
  else {| registry := {[module]} ∪ registry s;
          __dist_cache := __dist_cache s;
          sys_modules := sys_modules s |}.

End ComponentMeta.

(** What can happen to the registry between two calls: a class statement
    under the metaclass, the import of a module, a call of
    [get_resources]. *)
Inductive event : Type :=
| NewClass (name __module__ : string)
| ImportModule (module_name : string) (module : gmap string (list nat))
| GetResources (resource_name : string) (order : list string).

Definition step (s : ComponentRegistry.state) (ev : event)
  : ComponentRegistry.state :=
  match ev with
  | NewClass name m => ComponentMeta.__new__ name m s
  | ImportModule module_name module =>
      {| ComponentRegistry.registry := ComponentRegistry.registry s;
         ComponentRegistry.__dist_cache := ComponentRegistry.__dist_cache s;
         ComponentRegistry.sys_modules :=
           <[module_name := module]> (ComponentRegistry.sys_modules s) |}
  | GetResources resource_name order =>
      (ComponentRegistry.get_resources resource_name order s).2
  end.

Definition run (evs : list event) (s : ComponentRegistry.state)
  : ComponentRegistry.state :=
  foldl step s evs.

(** ** Component metadata: [reorder_props], [filter_props],
       [parse_wildcards] *)

(** The metadata of a component is a dict from prop names to prop
    metadata, rendered as the list of its items in key order; the keys of
    a dict are pairwise distinct. *)
Fixpoint dict_get {A : Type} (k : string) (d : list (string * A))
  : option A :=
  match d with
  | [] => None
  | (k', v) :: rest => if decide (k' = k) then Some v else dict_get k rest
  end.

(** The dict without the key [k]. *)
Definition dict_remove {A : Type} (k : string) (d : list (string * A))
  : list (string * A) :=
  filter (fun kv => kv.1 <> k) d.

(** [d.pop(k)], as far as the dict goes: raises [KeyError(k)] on a missing
    key. *)
Definition dict_pop {A : Type} (k : string) (d : list (string * A))
  : result (list (string * A)) :=
  if decide (k ∈ d.*1) then inl (dict_remove k d)
  else inr (KeyError (Some k)).

(** Returns the dict it returns and the dict it was given as the call
    leaves it: [props.pop('children')] writes into the argument. *)
Definition reorder_props {A : Type} (props : list (string * A))
  : list (string * A) * list (string * A) :=
  match dict_get "children" props with
  | Some children =>
      let props := dict_remove "children" props in
      (("children", children) :: props, props)
  | None => (props, props)
  end.

(** [s[:-1]] *)
Fixpoint but_last (s : string) : string :=
  match s with
  | EmptyString => EmptyString
  | String c EmptyString => EmptyString
  | String c rest => String c (but_last rest)
  end.

Definition parse_wildcards {A : Type} (props : list (string * A))
  : list string :=
  foldl (fun list_of_valid_wildcard_attr_prefixes wildcard_attr =>
           if decide (wildcard_attr ∈ props.*1) then
             list_of_valid_wildcard_attr_prefixes ++ [but_last wildcard_attr]
           else list_of_valid_wildcard_attr_prefixes)
    [] ["data-*"; "aria-*"].

(** The metadata of one prop, as [filter_props] reads it: [meta_type] is
    [arg['type']] when ['type' in arg], [meta_flowType] is
    [arg['flowType']] when ['flowType' in arg]; of either dict the
    function reads the value under ['name'], of the second also the value
    under ['type'], and each may be missing. *)
Record type_object : Type := mk_type_object {
  type_object_name : option string
}.

Record flow_object : Type := mk_flow_object {
  flow_name : option string;
  flow_type : option string
}.

Record prop_meta : Type := mk_prop_meta {
  meta_type : option type_object;
  meta_flowType : option flow_object
}.

(** [d['name']] *)
Definition subscript_name (name : option string) : result string :=
  match name with
  | Some name => inl name
  | None => inr (KeyError (Some "name"))
  end.

(** One turn of the loop of [filter_props] on the copy [filtered_props].
    The final [else: raise ValueError] of the source cannot be reached:
    a prop with neither field has left the turn at [continue]. *)
Definition filter_props_step (filtered_props : list (string * prop_meta))
    (item : string * prop_meta) : result (list (string * prop_meta)) :=
  let (arg_name, arg) := item in
  let dash_events (filtered_props : result (list (string * prop_meta))) :=
    match filtered_props with
    | inl filtered_props =>
        if decide (arg_name = "dashEvents")
        then dict_pop arg_name filtered_props
        else inl filtered_props
    | inr e => inr e
    end in
  match meta_type arg, meta_flowType arg with
  | None, None => dict_pop arg_name filtered_props
  | Some type, _ =>
      match subscript_name (type_object_name type) with
      | inl arg_type =>
          dash_events
            (if decide (arg_type ∈ ["func"; "symbol"; "instanceOf"])
             then dict_pop arg_name filtered_props
             else inl filtered_props)
      | inr e => inr e
      end
  | None, Some flowType =>
      match subscript_name (flow_name flowType) with
      | inl arg_type_name =>
          dash_events
            (if decide (arg_type_name = "signature") then
               if decide (flow_type flowType = Some "object")
               then inl filtered_props
               else dict_pop arg_name filtered_props
             else inl filtered_props)
      | inr e => inr e
      end
  end.

Fixpoint filter_props_loop (items : list (string * prop_meta))
    (filtered_props : list (string * prop_meta))
  : result (list (string * prop_meta)) :=
  match items with
  | [] => inl filtered_props
  | item :: rest =>
      match filter_props_step filtered_props item with
      | inl filtered_props => filter_props_loop rest filtered_props
      | inr e => inr e
      end
  end.

(** [filtered_props] is a deep copy, and the loop runs over a snapshot of
    its items. *)
Definition filter_props (props : list (string * prop_meta))
  : result (list (string * prop_meta)) :=
  filter_props_loop props props.

(** * Part II: the vocabulary of the specification *)

(** *** Descendants, as the specification words them

    The Nodes below [c]: depth-first, pre-order, left to right through
    [children], the root excluded.  A sequence nested in a sequence is an
    entry, not an edge. *)
Fixpoint descendants (c : Component) : list Component :=
  match children c with
  | Some (VComp ch) => ch :: descendants ch
  | Some (VList l) | Some (VTuple l) =>
      (fix below (l : list pyval) : list Component :=
         match l with
         | [] => []
         | VComp ci :: rest => ci :: descendants ci ++ below rest
         | _ :: rest => below rest
         end) l
  | _ => []
  end.

(** The [id] of a Node that declares one other than [None]. *)
Definition non_null_id (d : Component) : option pyval :=
  match attr_id d with
  | None | Some VNone => None
  | Some id => Some id
  end.

(** The ids, in order, of the Nodes [ds] that declare a non-null id. *)
Definition preorder_ids (ds : list Component) : list pyval :=
  omap non_null_id ds.

(** The items below [c], Nodes and scalars, in the same order. *)
Fixpoint items (c : Component) : list pyval :=
  match children c with
  | Some (VComp ch) => VComp ch :: items ch
  | Some (VList l) | Some (VTuple l) =>
      (fix below (l : list pyval) : list pyval :=
         match l with
         | [] => []
         | VComp ci :: rest => VComp ci :: items ci ++ below rest
         | i :: rest => i :: below rest
         end) l
  | _ => []
  end.

(** The exception that the path label of a Node raises: its id is true
    and is not a string. *)
Definition label_error (d : Component) : option exn :=
  match attr_id d with
  | Some (VStr _) | None => None
  | Some (VNum n) => if decide (n = 0%Z) then None else Some ValueError
  | Some id => if truthy id then Some TypeError else None
  end.

Definition item_error (v : pyval) : option exn :=
  match v with
  | VComp c => label_error c
  | _ => None
  end.

(** A walk that stops in front of the first element that raises. *)
Fixpoint until_error {A : Type} (error : A -> option exn) (l : list A)
  : generator A :=
  match l with
  | [] => ([], None)
  | x :: rest =>
      match error x with
      | Some e => ([], Some e)
      | None => let (walked, stop) := until_error error rest in
                (x :: walked, stop)
      end
  end.

(** The Nodes walked below [c]: its descendants up to the first one whose
    label raises, and that exception. *)
Definition walked (c : Component) : generator Component :=
  until_error label_error (descendants c).

(** ** The loops, entry by entry

    Top-level forms of the loops that the methods run over a sequence, for
    the inductions below. *)

(** The entries of a value that is a list or a tuple. *)
Definition as_sequence (v : pyval) : option (list pyval) :=
  match v with
  | VList l | VTuple l => Some l
  | _ => None
  end.

Definition entry_path (idx : nat) (i : pyval) (i_id : string) : string :=
  "[" +:+ pretty idx +:+ "] " +:+ type_name i +:+ " " +:+ i_id.

Fixpoint traverse_entries (l : list pyval) (idx : nat)
  : generator (string * pyval) :=
  match l with
  | [] => ([], None)
  | i :: rest =>
      match id_label i with
      | inr e => ([], Some e)
      | inl i_id =>
          let list_path := entry_path idx i i_id in
          let (below, stop) :=
            match i with
            | VComp ci => traverse_with_paths ci
            | _ => ([], None)
            end in
          let yielded :=
            (list_path, i)
              :: map (fun pt => (list_path +:+ newline +:+ pt.1, pt.2))
                   below in
          match stop with
          | Some e => (yielded, Some e)
          | None =>
              let (more, stop) := traverse_entries rest (S idx) in
              (yielded ++ more, stop)
          end
      end
  end.

Fixpoint items_entries (l : list pyval) : list pyval :=
  match l with
  | [] => []
  | VComp ci :: rest => VComp ci :: items ci ++ items_entries rest
  | i :: rest => i :: items_entries rest
  end.

Fixpoint descendants_entries (l : list pyval) : list Component :=
  match l with
  | [] => []
  | VComp ci :: rest => ci :: descendants ci ++ descendants_entries rest
  | _ :: rest => descendants_entries rest
  end.

(** The components among yielded items. *)
Definition nodes_of (l : list pyval) : list Component :=
  omap (fun v => match v with VComp c => Some c | _ => None end) l.

(** *** The sequence loop, entry by entry

    The same loop seen from the entries: what it returns and the entries it
    leaves.  [mutable] tells a list from a tuple. *)
Definition mk_seq (mutable : bool) (l : list pyval) : pyval :=
  if mutable then VList l else VTuple l.

Fixpoint search_entries (mutable : bool) (id : string) (op : operation)
    (new_item : pyval) (todo : list pyval) : result pyval * list pyval :=
  match todo with
  | [] => (inr (KeyError (Some id)), [])
  | item :: rest =>
      if decide (item_id item = Some id) then
        match op with
        | Get => (inl item, todo)
        | Set_item =>
            if mutable then (inl VNone, new_item :: rest)
            else (inr TypeError, todo)
        | Delete =>
            if mutable then (inl VNone, rest) else (inr TypeError, todo)
        end
      else
        match item with
        | VComp ci =>
            let (r, ci') := _get_set_or_delete ci id op new_item in
            match r with
            | inr (KeyError _) =>
                let (r', rest') :=
                  search_entries mutable id op new_item rest in
                (r', VComp ci' :: rest')
            | _ => (r, VComp ci' :: rest)
            end
        | _ =>
            let (r', rest') := search_entries mutable id op new_item rest in
            (r', item :: rest')
        end
  end.

(** The descendants of [c] whose id is [k], in traversal order. *)
Definition occurrences (k : string) (c : Component) : list Component :=
  filter (fun d => get_id d = Some k) (descendants c).

Definition occurrences_entries (k : string) (l : list pyval)
  : list Component :=
  filter (fun d => get_id d = Some k) (descendants_entries l).

(** [children] is a Node or a sequence: what the structure check accepts. *)
Definition is_indexable (ch : option pyval) : bool :=
  match ch with
  | Some (VComp _) | Some (VList _) | Some (VTuple _) => true
  | _ => false
  end.

(** Of the components walked, the first one of each namespace. *)
Fixpoint first_per_namespace (seen : list string) (walk : list Component)
  : list Component :=
  match walk with
  | [] => []
  | c :: rest =>
      if decide (_namespace c ∈ seen) then first_per_namespace seen rest
      else c :: first_per_namespace (seen ++ [_namespace c]) rest
  end.

(** The declared resource list of a component, empty when it has none. *)
Definition declared (name : string) (c : Component) : list nat :=
  default [] (getattr_dist c name).

(** The writes of the extraction: each collected component tags the dicts
    of its declared list, in order. *)
Definition tag_all (name : string) (h : store) (cs : list Component)
  : store :=
  foldl (fun h c => foldl (tag (_namespace c)) h (declared name c)) h cs.

(** *** What the inductions over the tree establish

    Each property comes in two forms: for a call on a component, and for
    the loop over the entries of a sequence. *)

(** A failing call leaves the tree as it was. *)
Definition fails_clean (id : string) (op : operation) (new_item : pyval)
    (c : Component) : Prop :=
  forall e c', _get_set_or_delete c id op new_item = (inr e, c') -> c' = c.

Definition entries_fail_clean (id : string) (op : operation)
    (new_item : pyval) (l : list pyval) : Prop :=
  forall m e l', search_entries m id op new_item l = (inr e, l') -> l' = l.

(** [get] returns the first occurrence of the id, or raises. *)
Definition found (o : option Component) (e : exn) : result pyval :=
  match o with
  | Some n => inl (VComp n)
  | None => inr e
  end.

Definition get_finds_first (k : string) (new_item : pyval) (c : Component)
  : Prop :=
  _get_set_or_delete c k Get new_item
  = (found (head (occurrences k c))
       (KeyError (match _check_if_has_indexable_children c with
                  | inl _ => Some k
                  | inr _ => None
                  end)), c).

Definition entries_get_finds_first (k : string) (new_item : pyval)
    (l : list pyval) : Prop :=
  forall m,
    search_entries m k Get new_item l
    = (found (head (occurrences_entries k l)) (KeyError (Some k)), l).

(** A successful [delete] removes at least one occurrence of the id. *)
Definition delete_removes (k : string) (new_item : pyval) (c : Component)
  : Prop :=
  forall v c',
    _get_set_or_delete c k Delete new_item = (inl v, c') ->
    length (occurrences k c') < length (occurrences k c).

Definition entries_delete_removes (k : string) (new_item : pyval)
    (l : list pyval) : Prop :=
  forall m v l',
    search_entries m k Delete new_item l = (inl v, l') ->
    length (occurrences_entries k l') < length (occurrences_entries k l).

(** ** Vocabulary of the further properties *)

(** A component without its [children]: what identifies the node itself. *)
Definition strip (c : Component) : Component := set_children c None.

(** The Nodes that a successful [set] or [delete] puts where the matched
    Node was: none for [delete] and for a scalar, the new Node and its
    descendants for a component.  A sequence as new item is left out: it is
    walked in a [children] slot and not as an entry of a sequence. *)
Definition replacement (op : operation) (new_item : pyval)
  : option (list Component) :=
  match op with
  | Get => None
  | Delete => Some []
  | Set_item =>
      match new_item with
      | VComp x => Some (x :: descendants x)
      | VList _ | VTuple _ => None
      | _ => Some []
      end
  end.

(** [after] is [before] with the first Node carrying [k], and its
    descendants, replaced by [ins]; the Nodes before it are the same Nodes,
    up to their [children]. *)
Definition replaced_first (k : string) (ins before after : list Component)
  : Prop :=
  exists pre pre' n post,
    before = pre ++ n :: descendants n ++ post
    /\ after = pre' ++ ins ++ post
    /\ strip <$> pre' = strip <$> pre
    /\ get_id n = Some k
    /\ Forall (fun d => get_id d <> Some k) pre.

(** The entries that the navigator looks at below a node: the child
    itself when [children] is a Node, the entries of a sequence. *)
Definition entries (c : Component) : list pyval :=
  match children c with
  | Some (VComp ch) => [VComp ch]
  | Some (VList l) | Some (VTuple l) => l
  | _ => []
  end.

(** The node with these entries in place of its own. *)
Definition with_entries (c : Component) (l : list pyval) : Component :=
  match children c with
  | Some (VComp _) =>
      set_children c (Some (match l with x :: _ => x | [] => VNone end))
  | Some (VList _) => set_children c (Some (VList l))
  | Some (VTuple _) => set_children c (Some (VTuple l))
  | _ => c
  end.

(** A position below a node: the index of the entry to step into, level
    by level (0 for a child that is all of [children]).  [node_at p c] is
    the Node at position [p] below [c]. *)
Definition node_in (find : Component -> option Component) (i : nat)
    (l : list pyval) : option Component :=
  match l !! i with
  | Some (VComp ci) => find ci
  | _ => None
  end.

Fixpoint node_at (p : list nat) (c : Component) : option Component :=
  match p with
  | [] => Some c
  | i :: p' => node_in (node_at p') i (entries c)
  end.

(** Depth-first pre-order on positions: an ancestor comes before its
    descendants, an entry before the entries to its right. *)
Fixpoint precedes (q p : list nat) : bool :=
  match q, p with
  | [], _ :: _ => true
  | i :: q', j :: p' => (i <? j) || ((i =? j) && precedes q' p')
  | _, [] => false
  end.

(** What a successful [set] or [delete] puts at the position it found:
    the new item, or nothing. *)
Definition put (op : operation) (new_item : pyval) : option pyval :=
  match op with
  | Set_item => Some new_item
  | _ => None
  end.

(** The tree with the entry at position [p] replaced by [new], or removed
    when [new] is [None]; everything else is as it was. *)
Definition edit_entry (edit : Component -> Component) (last : bool) (i : nat)
    (new : option pyval) (l : list pyval) : list pyval :=
  if last then
    match new with
    | Some x => <[i:=x]> l
    | None => delete i l
    end
  else
    match l !! i with
    | Some (VComp ci) => <[i:=VComp (edit ci)]> l
    | _ => l
    end.

Fixpoint edit_at (p : list nat) (new : option pyval) (c : Component)
  : Component :=
  match p with
  | [] => c
  | i :: p' =>
      with_entries c
        (edit_entry (edit_at p' new) (bool_decide (p' = [])) i new
           (entries c))
  end.

(** [p] is the position of the first Node carrying [k] among the entries
    [l], and [c] is that Node. *)
Definition first_in (k : string) (l : list pyval) (i : nat) (p : list nat)
    (n : Component) : Prop :=
  node_in (node_at p) i l = Some n
  /\ get_id n = Some k
  /\ forall j q n',
      precedes (j :: q) (i :: p) = true ->
      node_in (node_at q) j l = Some n' -> get_id n' <> Some k.

(** A successful call on [c] edited [c] at the position of the first Node
    carrying [k]. *)
Definition edits (k : string) (op : operation) (new_item : pyval)
    (c : Component) : Prop :=
  forall v c',
    _get_set_or_delete c k op new_item = (inl v, c') ->
    exists i p n,
      first_in k (entries c) i p n
      /\ c' = edit_at (i :: p) (put op new_item) c.



(** The namespace that the extraction leaves on the dict behind [r]: that
    of the last collected component that lists it, if any. *)
Definition last_tag (name : string) (cs : list Component) (r : nat)
  : option string :=
  last (omap (fun c =>
                if decide (r ∈ declared name c) then Some (_namespace c)
                else None) cs).

(** The lists of the modules [ms] under the attribute [name], one after
    the other; a module without the attribute gives none. *)
Definition module_lists (s : ComponentRegistry.state) (name : string)
    (ms : list string) : list nat :=
  ms ≫= fun m =>
    default [] (ComponentRegistry.sys_modules s !! m ≫= fun module =>
                module !! name).

(** A prop whose metadata lacks the name that [filter_props] reads: the
    ['name'] of its [type], or of its [flowType] when it has no [type]. *)
Definition unnamed (arg : prop_meta) : bool :=
  match meta_type arg, meta_flowType arg with
  | Some type, _ => bool_decide (type_object_name type = None)
  | None, Some flowType => bool_decide (flow_name flowType = None)
  | None, None => false
  end.

(** A prop that cannot be passed from Python: a function, a symbol or an
    instance, or a Flow signature that is not an object. *)
Definition not_passable (arg : prop_meta) : bool :=
  match meta_type arg, meta_flowType arg with
  | Some type, _ =>
      match type_object_name type with
      | Some arg_type =>
          bool_decide (arg_type ∈ ["func"; "symbol"; "instanceOf"])
      | None => false
      end
  | None, Some flowType =>
      bool_decide (flow_name flowType = Some "signature")
      && negb (bool_decide (flow_type flowType = Some "object"))
  | None, None => false
  end.

(** A prop with neither a [type] nor a [flowType]. *)
Definition untyped (arg : prop_meta) : bool :=
  match meta_type arg, meta_flowType arg with
  | None, None => true
  | _, _ => false
  end.

(** The exception that the turn of [filter_props] on [item] raises, on a
    dict whose keys are distinct. *)
Definition turn_error (item : string * prop_meta) : option exn :=
  if unnamed item.2 then Some (KeyError (Some "name"))
  else if bool_decide (item.1 = "dashEvents") && not_passable item.2
       then Some (KeyError (Some "dashEvents"))
       else None.

(** The props that [filter_props] keeps. *)
Definition kept (item : string * prop_meta) : bool :=
  negb (untyped item.2) && negb (not_passable item.2)
  && negb (bool_decide (item.1 = "dashEvents")).

(** ** The trees and registries of the scenarios *)

(** A component with no children of its own: the attribute is either not
    set or holds [None], the default of the generated constructors. *)
Definition no_children (unset : bool) : option pyval :=
  if unset then None else Some VNone.

Definition scenario_A (unset : bool) : Component :=
  mkComponent "A" "ns" ["children"; "id"] ["data-"; "aria-"]
    (Some (VStr "a")) (no_children unset) [] [].
Definition scenario_C (unset : bool) : Component :=
  mkComponent "C" "ns" ["children"; "id"] ["data-"; "aria-"]
    (Some (VStr "c")) (no_children unset) [] [].
Definition scenario_B (unset : bool) : Component :=
  mkComponent "B" "ns" ["children"; "id"] ["data-"; "aria-"]
    (Some (VStr "b")) (Some (VList [VComp (scenario_C unset)])) [] [].
Definition scenario_root (ua uc : bool) : Component :=
  mkComponent "Root" "ns" ["children"; "id"] ["data-"; "aria-"] None
    (Some (VList [VComp (scenario_A ua); VStr "text";
                  VComp (scenario_B uc)])) [] [].

(** A node whose [children] is a scalar. *)
Definition scalar_node : Component :=
  mkComponent "A" "ns" ["children"; "id"] ["data-"; "aria-"]
    (Some (VStr "a")) (Some (VStr "text")) [] [].

(** Two siblings carrying the same id. *)
Definition twin (t : string) : Component :=
  mkComponent t "ns" ["children"; "id"] ["data-"; "aria-"]
    (Some (VStr "k")) (Some VNone) [] [].

Definition twins_root : Component :=
  mkComponent "Root" "ns" ["children"; "id"] ["data-"; "aria-"] None
    (Some (VList [VComp (twin "A"); VComp (twin "B")])) [] [].

(** A sequence of two entries: a Node with a scalar [children] and another
    id, then the Node looked for. *)
Definition stray_root : Component :=
  mkComponent "Root" "ns" ["children"; "id"] ["data-"; "aria-"] None
    (Some (VList [VComp scalar_node; VComp (twin "B")])) [] [].

(** The node of the serialisation scenario: [id] is "a", [bar] is 1, and
    [foo] is either not set on the instance or holds a value. *)
Definition scenario_props (foo : option pyval) : Component :=
  mkComponent "A" "ns" ["id"; "foo"; "bar"] ["data-"; "aria-"]
    (Some (VStr "a")) None
    (match foo with Some v => [("foo", v)] | None => [] end
     ++ [("bar", VNum 1)]) [].

(** A layout over two libraries: the root and its second child come from
    [html], the first child from [core]; each class carries the [_js_dist]
    of its library, the second [html] class a list of its own. *)
Definition two_libraries : Resources :=
  let html (t : string) (dist : list nat) (ch : option pyval) :=
    mkComponent t "html" ["children"; "id"] ["data-"; "aria-"] None ch []
      [("_js_dist", dist)] in
  let core (t : string) :=
    mkComponent t "core" ["children"; "id"] ["data-"; "aria-"] None
      (Some VNone) [] [("_js_dist", [2])] in
  {| _resources := [];
     resource_name := "_js_dist";
     layout := html "Div" [0; 1]
                 (Some (VList [VComp (core "Graph"); VStr "text";
                               VComp (html "Span" [5] (Some VNone))])) |}.

(** The scenario tree with a Node between A and B whose id is the number
    5. *)
Definition numbered_root : Component :=
  mkComponent "Root" "ns" ["children"; "id"] ["data-"; "aria-"] None
    (Some (VList [VComp (scenario_A false);
                  VComp (mkComponent "N" "ns" ["children"; "id"]
                           ["data-"; "aria-"] (Some (VNum 5)) (Some VNone)
                           [] []);
                  VComp (scenario_B false)])) [] [].

(** A layout over two libraries whose classes list the same dict
    object. *)
Definition shared_dict : Resources :=
  {| _resources := [];
     resource_name := "_js_dist";
     layout :=
       mkComponent "Div" "html" ["children"; "id"] ["data-"; "aria-"] None
         (Some (VComp (mkComponent "Graph" "core" ["children"; "id"]
                         ["data-"; "aria-"] None (Some VNone) []
                         [("_js_dist", [0])])))
         [] [("_js_dist", [0])] |}.

(** A layout over one library, each class with a list of its own. *)
Definition one_namespace : Resources :=
  let html (t : string) (dist : list nat) (ch : option pyval) :=
    mkComponent t "html" ["children"; "id"] ["data-"; "aria-"] None ch []
      [("_js_dist", dist)] in
  {| _resources := [];
     resource_name := "_js_dist";
     layout := html "Div" [0; 1]
                 (Some (VList [VComp (html "Span" [5] (Some VNone));
                               VStr "text";
                               VComp (html "P" [6] (Some VNone))])) |}.

(** A component whose class declares the properties [id] and [values];
    only [id] is set. *)
Definition checklist : Component :=
  mkComponent "Checklist" "ns" ["id"; "values"] ["data-"; "aria-"]
    (Some (VStr "c")) None [] [].

(** A tuple of children. *)
Definition tuple_root : Component :=
  mkComponent "Root" "ns" ["children"; "id"] ["data-"; "aria-"] None
    (Some (VTuple [VComp (twin "A")])) [] [].

(** A registry with one library loaded, and a second library imported and
    registered after the first call. *)
Definition one_library : ComponentRegistry.state :=
  {| ComponentRegistry.registry := {["lib_a"]};
     ComponentRegistry.__dist_cache := ∅;
     ComponentRegistry.sys_modules :=
       {[ "lib_a" := {[ "_js_dist" := [1; 2] ]} ]} |}.

Definition second_library : list event :=
  [ImportModule "lib_b" {[ "_js_dist" := [3] ]};
   NewClass "Button" "lib_b.Button"].

(** A tree with a single child that has a single child. *)
Definition chain_root : Component :=
  mkComponent "Root" "ns" ["children"; "id"] ["data-"; "aria-"] None
    (Some (VComp (mkComponent "Mid" "ns" ["children"; "id"]
                    ["data-"; "aria-"] (Some (VStr "mid"))
                    (Some (VComp (twin "Leaf"))) [] []))) [] [].

(** A registry whose second library is no longer in [sys.modules]. *)
Definition unloaded_library : ComponentRegistry.state :=
  {| ComponentRegistry.registry := {["lib_a"; "lib_b"]};
     ComponentRegistry.__dist_cache := ∅;
     ComponentRegistry.sys_modules :=
       {[ "lib_a" := {[ "_js_dist" := [1; 2] ]} ]} |}.

(** The metadata of a prop whose PropTypes type is [name]. *)
Definition prop_of_type (name : string) : prop_meta :=
  mk_prop_meta (Some (mk_type_object (Some name))) None.

(** The metadata of the docstring of [filter_props], with [children] and
    a wildcard added. *)
Definition example_props : list (string * prop_meta) :=
  [("prop1", mk_prop_meta (Some (mk_type_object (Some "bool")))
               (Some (mk_flow_object None None)));
   ("prop2", mk_prop_meta None None);
   ("children", prop_of_type "node");
   ("prop3", prop_of_type "func");
   ("data-*", prop_of_type "string")].

(** Metadata whose [dashEvents] is a function. *)
Definition events_as_function : list (string * prop_meta) :=
  [("id", prop_of_type "string");
   ("dashEvents", prop_of_type "func")].

(** Metadata with both wildcard keys. *)
Definition wildcard_props : list (string * prop_meta) :=
  [("id", prop_of_type "string");
   ("aria-*", prop_of_type "string");
   ("data-*", prop_of_type "string")].

(** * Part III: the properties *)

(** Induction over the tree: the [children] slot and the entries of a
    sequence are the recursive edges. *)
Section tree_induction.
Variable P : Component -> Prop.
Variable Q : pyval -> Prop.
Hypothesis Q_none : Q VNone.
Hypothesis Q_undefined : Q VUndefined.
Hypothesis Q_str : forall s, Q (VStr s).
Hypothesis Q_num : forall n, Q (VNum n).
Hypothesis Q_comp : forall c, P c -> Q (VComp c).
Hypothesis Q_list : forall l, Forall Q l -> Q (VList l).
Hypothesis Q_tuple : forall l, Forall Q l -> Q (VTuple l).
Hypothesis P_absent : forall t n p w i ps d,
    P (mkComponent t n p w i None ps d).
Hypothesis P_set : forall t n p w i v ps d,
    Q v -> P (mkComponent t n p w i (Some v) ps d).

Fixpoint pyval_tree_ind (v : pyval) : Q v :=
  let fix entries (l : list pyval) : Forall Q l :=
    match l with
    | [] => @List.Forall_nil _ Q
    | x :: l' => @List.Forall_cons _ Q x l' (pyval_tree_ind x) (entries l')
    end in
  match v with
  | VNone => Q_none
  | VUndefined => Q_undefined
  | VStr s => Q_str s
  | VNum n => Q_num n
  | VComp c => Q_comp c (Component_tree_ind c)
  | VList l => Q_list l (entries l)
  | VTuple l => Q_tuple l (entries l)
  end
with Component_tree_ind (c : Component) : P c :=
  match c with
  | mkComponent t n p w i None ps d => P_absent t n p w i ps d
  | mkComponent t n p w i (Some v) ps d =>
      P_set t n p w i v ps d (pyval_tree_ind v)
  end.
End tree_induction.

Lemma traverse_with_paths_seq (self : Component) (l : list pyval) :
  as_sequence (default VNone (children self)) = Some l ->
  traverse_with_paths self = traverse_entries l 0.
Proof.
  destruct self as [t n p w i [[]|] ps d]; simpl; try discriminate;
    intros [= ->]; generalize 0.
  all: induction l as [|x l IH]; intros idx; [reflexivity|].
  all: cbn [traverse_entries]; specialize (IH (S idx)).
  all: destruct (id_label x); [|reflexivity].
  all: unfold entry_path.
  all: destruct (match x with
                 | VComp ci => traverse_with_paths ci
                 | _ => ([], None)
                 end) as [below [e|]]; [reflexivity|].
  all: rewrite <- IH; reflexivity.
Qed.

Lemma descendants_seq (self : Component) (l : list pyval) :
  as_sequence (default VNone (children self)) = Some l ->
  descendants self = descendants_entries l.
Proof.
  destruct self as [t n p w i [[]|] ps d]; simpl; try discriminate;
    intros [= ->].
  all: induction l as [|x l IH]; [reflexivity|].
  all: destruct x; cbn [descendants_entries]; try exact IH.
  all: etransitivity; [|apply f_equal, f_equal, IH]; reflexivity.
Qed.

Lemma items_seq (self : Component) (l : list pyval) :
  as_sequence (default VNone (children self)) = Some l ->
  items self = items_entries l.
Proof.
  destruct self as [t n p w i [[]|] ps d]; simpl; try discriminate;
    intros [= ->].
  all: induction l as [|x l IH]; [reflexivity|].
  all: destruct x; cbn [items_entries]; try (f_equal; exact IH).
  all: etransitivity; [|apply f_equal, f_equal, IH]; reflexivity.
Qed.

Lemma nodes_of_app (l1 l2 : list pyval) :
  nodes_of (l1 ++ l2) = nodes_of l1 ++ nodes_of l2.
Proof. apply omap_app. Qed.

Lemma snd_relabel (g : string * pyval -> string * pyval)
    (l : list (string * pyval)) :
  (forall pt, (g pt).2 = pt.2) -> map snd (map g l) = map snd l.
Proof.
  intros Hg. rewrite map_map. apply map_ext. exact Hg.
Qed.

(** Formatting the label of an item raises what [item_error] tells. *)
Lemma id_label_error (v : pyval) :
  match id_label v with
  | inl _ => item_error v = None
  | inr e => item_error v = Some e
  end.
Proof.
  destruct v as [| | | |c| |]; try reflexivity.
  unfold id_label, item_error, label_error.
  destruct (attr_id c) as [[| |s|n|c'|[|x l]|[|x l]]|]; cbn;
    try reflexivity.
  - destruct (bool_decide (s = "")); reflexivity.
  - destruct (decide (n = 0%Z)) as [->|Hn]; [reflexivity|].
    rewrite bool_decide_false by exact Hn. reflexivity.
  - destruct (bool_decide (__len__ c' = 0)); reflexivity.
Qed.

Lemma until_error_app {A : Type} (error : A -> option exn)
    (l1 l2 : list A) :
  until_error error (l1 ++ l2)
  = match until_error error l1 with
    | (walked, Some e) => (walked, Some e)
    | (walked, None) =>
        let (more, stop) := until_error error l2 in (walked ++ more, stop)
    end.
Proof.
  induction l1 as [|x l1 IH]; cbn [app until_error].
  - destruct (until_error error l2). reflexivity.
  - destruct (error x); [reflexivity|]. rewrite IH.
    destruct (until_error error l1) as [w [e|]]; [reflexivity|].
    destruct (until_error error l2). reflexivity.
Qed.

Lemma until_error_prefix {A : Type} (error : A -> option exn)
    (l : list A) :
  (until_error error l).1 `prefix_of` l
  /\ ((until_error error l).2 = None -> (until_error error l).1 = l).
Proof.
  induction l as [|x l [IHp IHe]]; cbn [until_error].
  - split; [reflexivity|auto].
  - destruct (error x).
    + split; [apply prefix_nil|discriminate].
    + destruct (until_error error l) as [w stop]. cbn in *. split.
      * apply prefix_cons. exact IHp.
      * intros Hstop. rewrite IHe by exact Hstop. reflexivity.
Qed.

Lemma until_error_clean {A : Type} (error : A -> option exn) (l : list A) :
  Forall (fun x => error x = None) l -> until_error error l = (l, None).
Proof.
  induction 1 as [|x l Hx _ IH]; [reflexivity|].
  cbn [until_error]. rewrite Hx, IH. reflexivity.
Qed.

(** Scalars raise nothing: the walk over the items stops where the walk
    over the Nodes among them stops. *)
Lemma nodes_until_error (l : list pyval) :
  (let (walked, stop) := until_error item_error l in
   (nodes_of walked, stop))
  = until_error label_error (nodes_of l).
Proof.
  induction l as [|x l IH]; [reflexivity|].
  cbn [until_error].
  destruct x as [| | | |c| |]; cbn [item_error];
    try (destruct (until_error item_error l); exact IH).
  change (nodes_of (VComp c :: l)) with (c :: nodes_of l).
  cbn [until_error]. destruct (label_error c); [reflexivity|].
  rewrite <- IH. destruct (until_error item_error l). reflexivity.
Qed.

(** [traverse] yields the items below the root, in their order, up to the
    first Node whose label cannot be formatted. *)
Lemma traverse_items (c : Component) :
  traverse c = until_error item_error (items c).
Proof.
  induction c using Component_tree_ind with
    (Q := fun v =>
            match v with
            | VComp c => traverse c = until_error item_error (items c)
            | VList l | VTuple l =>
                forall idx,
                  (let (yielded, stop) := traverse_entries l idx in
                   (map snd yielded, stop))
                  = until_error item_error (items_entries l)
            | _ => True
            end); try exact I; try assumption.
  1, 2: induction H as [|x l Hx Hl IH]; intros idx; [reflexivity|];
    cbn [traverse_entries items_entries];
    pose proof (id_label_error x) as Hlabel;
    destruct (id_label x) as [x_id|e];
    [|destruct x; try discriminate; cbn [until_error];
      cbn [item_error] in Hlabel |- *; rewrite Hlabel; reflexivity];
    specialize (IH (S idx));
    destruct (traverse_entries l (S idx)) as [more stop'];
    destruct x as [| | | |cx| |];
      cbn [until_error]; cbn [item_error] in Hlabel |- *;
      try (rewrite <- IH; reflexivity);
    rewrite Hlabel; rewrite until_error_app, <- Hx, <- IH;
    unfold traverse;
    destruct (traverse_with_paths cx) as [below [e|]];
    rewrite ?map_app; cbn [fst snd map app];
    rewrite ?snd_relabel by reflexivity; reflexivity.
  - reflexivity.
  - destruct v as [| | | |ch|l|l]; try reflexivity.
    + unfold traverse in *.
      cbn [traverse_with_paths children default from_option items].
      unfold id at 1 2 3.
      pose proof (id_label_error (VComp ch)) as Hlabel.
      destruct (id_label (VComp ch)) as [ch_id|e];
        cbn [item_error] in Hlabel; cbn [until_error item_error];
        rewrite Hlabel; [|reflexivity].
      rewrite <- IHc.
      destruct (traverse_with_paths ch) as [below stop].
      cbn [map snd]. rewrite snd_relabel by reflexivity. reflexivity.
    + unfold traverse.
      rewrite (traverse_with_paths_seq _ l), (items_seq _ l) by reflexivity.
      apply IHc.
    + unfold traverse.
      rewrite (traverse_with_paths_seq _ l), (items_seq _ l) by reflexivity.
      apply IHc.
Qed.

(** The Nodes among the items below [c] are its descendants. *)
Lemma items_nodes (c : Component) : nodes_of (items c) = descendants c.
Proof.
  induction c using Component_tree_ind with
    (Q := fun v =>
            match v with
            | VComp c => nodes_of (items c) = descendants c
            | VList l | VTuple l =>
                nodes_of (items_entries l) = descendants_entries l
            | _ => True
            end); try exact I; try assumption.
  1, 2: induction H as [|x l Hx Hl IH]; [reflexivity|];
    destruct x; cbn [items_entries descendants_entries]; try exact IH;
    change (nodes_of (VComp c :: items c ++ items_entries l))
      with (c :: nodes_of (items c ++ items_entries l));
    rewrite nodes_of_app, Hx, IH; reflexivity.
  - reflexivity.
  - destruct v as [| | | |ch|l|l]; try reflexivity.
    + change (nodes_of (items _)) with (ch :: nodes_of (items ch)).
      rewrite IHc. reflexivity.
    + rewrite (items_seq _ l), (descendants_seq _ l) by reflexivity.
      exact IHc.
    + rewrite (items_seq _ l), (descendants_seq _ l) by reflexivity.
      exact IHc.
Qed.

(** [traverse] yields the descendants, in their order, among the other
    entries of the sequences it walks, up to the first one whose label
    raises. *)
Lemma traverse_nodes (c : Component) :
  (nodes_of (traverse c).1, (traverse c).2) = walked c.
Proof.
  rewrite traverse_items. unfold walked. rewrite <- items_nodes.
  rewrite <- nodes_until_error.
  destruct (until_error item_error (items c)). reflexivity.
Qed.

Lemma set_children_same (c : Component) :
  set_children c (children c) = c.
Proof. destruct c; reflexivity. Qed.

Lemma set_children_twice (c : Component) (a b : option pyval) :
  set_children (set_children c a) b = set_children c b.
Proof. destruct c; reflexivity. Qed.

Lemma children_set_children (c : Component) (a : option pyval) :
  children (set_children c a) = a.
Proof. destruct c; reflexivity. Qed.

Lemma insert_middle_entry (pre rest : list pyval) (x y : pyval) :
  <[length pre := y]> (pre ++ x :: rest) = pre ++ y :: rest.
Proof.
  replace (length pre) with (length pre + 0) by lia.
  rewrite insert_app_r. reflexivity.
Qed.

Lemma search_sequence_entries (m : bool) (id : string) (op : operation)
    (new_item : pyval) (todo pre : list pyval) (self : Component) :
  children self = Some (mk_seq m (pre ++ todo)) ->
  search_sequence (fun item => _get_set_or_delete item id op new_item)
    id op new_item todo (length pre) self
  = let (r, todo') := search_entries m id op new_item todo in
    (r, set_children self (Some (mk_seq m (pre ++ todo')))).
Proof.
  revert pre self.
  induction todo as [|item rest IH]; intros pre self Hch.
  - simpl. rewrite <- Hch, set_children_same. reflexivity.
  - cbn [search_sequence search_entries].
    assert (Hnext : forall v self',
               self' = set_children self
                         (Some (mk_seq m (pre ++ v :: rest))) ->
               search_sequence
                 (fun item => _get_set_or_delete item id op new_item)
                 id op new_item rest (S (length pre)) self'
               = let (r, rest') := search_entries m id op new_item rest in
                 (r, set_children self
                       (Some (mk_seq m (pre ++ v :: rest'))))).
    { intros v self' ->.
      specialize (IH (pre ++ [v]) (set_children self
                         (Some (mk_seq m (pre ++ v :: rest))))).
      rewrite length_app, Nat.add_1_r in IH. cbn [length] in IH.
      rewrite IH.
      - destruct (search_entries m id op new_item rest) as [r rest'].
        rewrite set_children_twice, <- app_assoc. reflexivity.
      - rewrite children_set_children, <- app_assoc. reflexivity. }
    assert (Hstore : forall v,
               store_entry self (length pre) v
               = set_children self (Some (mk_seq m (pre ++ v :: rest)))).
    { intros v. unfold store_entry.
      destruct m; cbn [mk_seq] in *; rewrite Hch, insert_middle_entry;
        reflexivity. }
    destruct (decide (item_id item = Some id)) as [Hid|Hid].
    + destruct op.
      * rewrite <- Hch, set_children_same. reflexivity.
      * unfold setitem_children. destruct m; cbn [mk_seq] in *; rewrite Hch.
        -- rewrite insert_middle_entry. reflexivity.
        -- rewrite <- Hch, set_children_same. reflexivity.
      * unfold delitem_children. destruct m; cbn [mk_seq] in *; rewrite Hch.
        -- rewrite delete_middle. reflexivity.
        -- rewrite <- Hch, set_children_same. reflexivity.
    + assert (Hskip :
               search_sequence
                 (fun item => _get_set_or_delete item id op new_item)
                 id op new_item rest (S (length pre)) self
               = let (r, todo') :=
                   (let (r', rest') := search_entries m id op new_item rest in
                    (r', item :: rest')) in
                 (r, set_children self (Some (mk_seq m (pre ++ todo'))))).
      { rewrite (Hnext item self)
          by (rewrite <- Hch, set_children_same; reflexivity).
        destruct (search_entries m id op new_item rest); reflexivity. }
      destruct item as [| | | |ci| |]; try exact Hskip.
      destruct (_get_set_or_delete ci id op new_item) as [r ci'].
      rewrite Hstore.
      destruct r as [v|[arg| |]]; try reflexivity.
      rewrite (Hnext (VComp ci')) by reflexivity.
      destruct (search_entries m id op new_item rest); reflexivity.
Qed.

(** [_get_set_or_delete], one level at a time. *)
Lemma _get_set_or_delete_unfold (self : Component) (id : string)
    (op : operation) (new_item : pyval) :
  _get_set_or_delete self id op new_item
  = match children self with
    | Some (VComp ch) =>
        if decide (get_id ch = Some id) then
          match op with
          | Get => (inl (VComp ch), self)
          | Set_item => (inl VNone, set_children self (Some new_item))
          | Delete => (inl VNone, set_children self (Some VNone))
          end
        else
          let (r, ch') := _get_set_or_delete ch id op new_item in
          match r with
          | inr (KeyError _) =>
              (inr (KeyError (Some id)),
               set_children self (Some (VComp ch')))
          | _ => (r, set_children self (Some (VComp ch')))
          end
    | Some (VList l) =>
        let (r, l') := search_entries true id op new_item l in
        (r, set_children self (Some (VList l')))
    | Some (VTuple l) =>
        let (r, l') := search_entries false id op new_item l in
        (r, set_children self (Some (VTuple l')))
    | _ => (inr (KeyError None), self)
    end.
Proof.
  destruct self as [t n p w i [v|] ps d]; [|reflexivity].
  destruct v as [| | | |ch|l|l]; try reflexivity.
  - exact (search_sequence_entries true id op new_item l []
             (mkComponent t n p w i (Some (VList l)) ps d) eq_refl).
  - exact (search_sequence_entries false id op new_item l []
             (mkComponent t n p w i (Some (VTuple l)) ps d) eq_refl).
Qed.

(** A call only ever touches the [children] attribute of [self]. *)
Lemma _get_set_or_delete_attrs (self : Component) (id : string)
    (op : operation) (new_item : pyval) :
  exists v, (_get_set_or_delete self id op new_item).2 = set_children self v.
Proof.
  rewrite _get_set_or_delete_unfold.
  destruct (children self) as [[| | | |ch|l|l]|] eqn:Hch;
    try (exists (children self); rewrite set_children_same; reflexivity).
  - destruct (decide (get_id ch = Some id)).
    + destruct op; eauto.
      exists (children self); rewrite set_children_same; reflexivity.
    + destruct (_get_set_or_delete ch id op new_item) as [[v|[arg| |]] ch'];
        eauto.
  - destruct (search_entries true id op new_item l); eauto.
  - destruct (search_entries false id op new_item l); eauto.
Qed.

Lemma get_id_set_children (c : Component) (v : option pyval) :
  get_id (set_children c v) = get_id c.
Proof. destruct c; reflexivity. Qed.

Lemma _get_set_or_delete_get_id (self self' : Component) (id : string)
    (op : operation) (new_item : pyval) (r : result pyval) :
  _get_set_or_delete self id op new_item = (r, self') ->
  get_id self' = get_id self.
Proof.
  intros H. destruct (_get_set_or_delete_attrs self id op new_item) as [v Hv].
  rewrite H in Hv. simpl in Hv. subst self'. apply get_id_set_children.
Qed.

(** *** A failing call leaves the tree as it was *)

Section failure.
Variables (id : string) (op : operation) (new_item : pyval).

Lemma entries_fail_clean_intro (l : list pyval) :
  Forall (fun v => match v with
                   | VComp c => fails_clean id op new_item c
                   | _ => True
                   end) l ->
  entries_fail_clean id op new_item l.
Proof.
  induction 1 as [|item rest Hitem _ IH]; intros m e l' Hrun.
  - simpl in Hrun. congruence.
  - cbn [search_entries] in Hrun.
    destruct (decide (item_id item = Some id)).
    + destruct op, m; congruence.
    + assert (Hrest : forall r rest',
                 search_entries m id op new_item rest = (r, rest') ->
                 r = inr e -> rest' = rest).
      { intros r rest' Hr ->. exact (IH m e rest' Hr). }
      destruct item as [| | | |ci| |];
        try (destruct (search_entries m id op new_item rest) as [r rest']
               eqn:Hr; injection Hrun as -> <-;
             f_equal; eapply Hrest; eauto).
      destruct (_get_set_or_delete ci id op new_item) as [r ci'] eqn:Hci.
      destruct r as [v|e0]; [congruence|].
      rewrite (Hitem e0 ci' Hci) in *.
      destruct e0 as [arg| |]; [|congruence|congruence].
      destruct (search_entries m id op new_item rest) as [r rest'] eqn:Hr.
      injection Hrun as -> <-. f_equal. eapply Hrest; eauto.
Qed.

Lemma _get_set_or_delete_fails_clean (c : Component) :
  fails_clean id op new_item c.
Proof.
  induction c using Component_tree_ind with
    (Q := fun v => match v with
                   | VComp c => fails_clean id op new_item c
                   | VList l | VTuple l => entries_fail_clean id op new_item l
                   | _ => True
                   end);
    try exact I; try assumption;
    try (apply entries_fail_clean_intro;
         eapply Forall_impl; [eassumption|];
         intros [] ?; auto; fail).
  - intros e c' Hrun. rewrite _get_set_or_delete_unfold in Hrun.
    simpl in Hrun. congruence.
  - intros e c' Hrun. rewrite _get_set_or_delete_unfold in Hrun.
    cbn [children] in Hrun.
    destruct v as [| | | |ch|l|l]; try congruence.
    + destruct (decide (get_id ch = Some id)).
      * destruct op; congruence.
      * destruct (_get_set_or_delete ch id op new_item) as [r ch'] eqn:Hch.
        destruct r as [v|e0]; [congruence|].
        rewrite (IHc e0 ch' Hch) in *.
        destruct e0; injection Hrun as _ <-; reflexivity.
    + destruct (search_entries true id op new_item l) as [r l'] eqn:Hr.
      injection Hrun as -> <-. rewrite (IHc true e l' Hr). reflexivity.
    + destruct (search_entries false id op new_item l) as [r l'] eqn:Hr.
      injection Hrun as -> <-. rewrite (IHc false e l' Hr). reflexivity.
Qed.
End failure.

Lemma occurrences_unfold (k : string) (c : Component) :
  occurrences k c
  = match children c with
    | Some (VComp ch) =>
        if decide (get_id ch = Some k) then ch :: occurrences k ch
        else occurrences k ch
    | Some (VList l) | Some (VTuple l) => occurrences_entries k l
    | _ => []
    end.
Proof.
  unfold occurrences, occurrences_entries.
  destruct c as [t n p w i [[| | | |ch|l|l]|] ps d]; try reflexivity;
    rewrite (descendants_seq _ l) by reflexivity; reflexivity.
Qed.

Lemma occurrences_entries_cons (k : string) (item : pyval)
    (rest : list pyval) :
  occurrences_entries k (item :: rest)
  = match item with
    | VComp ci =>
        (if decide (get_id ci = Some k) then [ci] else [])
          ++ occurrences k ci ++ occurrences_entries k rest
    | _ => occurrences_entries k rest
    end.
Proof.
  unfold occurrences, occurrences_entries.
  destruct item as [| | | |ci| |]; try reflexivity.
  cbn [descendants_entries]. rewrite filter_cons, filter_app.
  destruct (decide (get_id ci = Some k)); reflexivity.
Qed.

Lemma item_id_matches (k : string) (item : pyval) :
  item_id item = Some k -> exists c, item = VComp c /\ get_id c = Some k.
Proof. destruct item; try discriminate. eauto. Qed.

Section get.
Variables (k : string) (new_item : pyval).

Lemma entries_get_finds_first_intro (l : list pyval) :
  Forall (fun v => match v with
                   | VComp c => get_finds_first k new_item c
                   | _ => True
                   end) l ->
  entries_get_finds_first k new_item l.
Proof.
  induction 1 as [|item rest Hitem _ IH]; intros m; [reflexivity|].
  cbn [search_entries]. rewrite occurrences_entries_cons.
  destruct (decide (item_id item = Some k)) as [Hid|Hid].
  - destruct (item_id_matches _ _ Hid) as (c & -> & Hc).
    rewrite decide_True by exact Hc. reflexivity.
  - destruct item as [| | | |ci| |]; try (rewrite IH; reflexivity).
    simpl in Hid. rewrite decide_False by exact Hid.
    red in Hitem. rewrite Hitem.
    destruct (occurrences k ci) as [|n occ]; simpl.
    + rewrite IH. reflexivity.
    + reflexivity.
Qed.

Lemma _get_set_or_delete_get (c : Component) : get_finds_first k new_item c.
Proof.
  induction c using Component_tree_ind with
    (Q := fun v => match v with
                   | VComp c => get_finds_first k new_item c
                   | VList l | VTuple l => entries_get_finds_first k new_item l
                   | _ => True
                   end);
    try exact I; try assumption;
    try (apply entries_get_finds_first_intro;
         eapply Forall_impl; [eassumption|];
         intros [] ?; auto; fail).
  - reflexivity.
  - red. rewrite _get_set_or_delete_unfold, occurrences_unfold.
    unfold _check_if_has_indexable_children. cbn [children].
    destruct v as [| | | |ch|l|l]; try reflexivity.
    + destruct (decide (get_id ch = Some k)); [reflexivity|].
      red in IHc. rewrite IHc.
      destruct (occurrences k ch) as [|first occ]; reflexivity.
    + rewrite (IHc true). rewrite set_children_same. reflexivity.
    + rewrite (IHc false). rewrite set_children_same. reflexivity.
Qed.
End get.

(** *** What a successful [delete] removes *)

Section delete.
Variables (k : string) (new_item : pyval).

Lemma entries_delete_removes_intro (l : list pyval) :
  Forall (fun v => match v with
                   | VComp c => delete_removes k new_item c
                   | _ => True
                   end) l ->
  entries_delete_removes k new_item l.
Proof.
  induction 1 as [|item rest Hitem _ IH]; intros m v l' Hrun.
  - discriminate.
  - cbn [search_entries] in Hrun.
    rewrite (occurrences_entries_cons k item rest).
    destruct (decide (item_id item = Some k)) as [Hid|Hid].
    + destruct (item_id_matches _ _ Hid) as (c & -> & Hc).
      destruct m; [|discriminate]. injection Hrun as _ <-.
      rewrite decide_True by exact Hc.
      rewrite !length_app. simpl. lia.
    + assert (Hrest : forall r rest',
                 search_entries m k Delete new_item rest = (r, rest') ->
                 r = inl v ->
                 length (occurrences_entries k rest')
                 < length (occurrences_entries k rest)).
      { intros r rest' Hr ->. exact (IH m v rest' Hr). }
      destruct item as [| | | |ci| |];
        try (destruct (search_entries m k Delete new_item rest)
               as [r rest'] eqn:Hr; injection Hrun as -> <-;
             rewrite occurrences_entries_cons; eapply Hrest; eauto).
      simpl in Hid.
      destruct (_get_set_or_delete ci k Delete new_item) as [r ci'] eqn:Hci.
      pose proof (_get_set_or_delete_get_id _ _ _ _ _ _ Hci) as Hsame.
      destruct r as [v0|[arg| |]]; [| |discriminate|discriminate].
      * injection Hrun as -> <-. rewrite occurrences_entries_cons.
        rewrite Hsame, !decide_False by exact Hid.
        rewrite !length_app. specialize (Hitem v ci' Hci). simpl. lia.
      * rewrite (_get_set_or_delete_fails_clean _ _ _ _ _ _ Hci) in *.
        destruct (search_entries m k Delete new_item rest)
          as [r rest'] eqn:Hr.
        injection Hrun as -> <-. rewrite occurrences_entries_cons.
        rewrite !length_app. specialize (Hrest _ _ eq_refl eq_refl). lia.
Qed.

Lemma _get_set_or_delete_delete (c : Component) : delete_removes k new_item c.
Proof.
  induction c using Component_tree_ind with
    (Q := fun v => match v with
                   | VComp c => delete_removes k new_item c
                   | VList l | VTuple l => entries_delete_removes k new_item l
                   | _ => True
                   end);
    try exact I; try assumption;
    try (apply entries_delete_removes_intro;
         eapply Forall_impl; [eassumption|];
         intros [] ?; auto; fail).
  - intros v0 c' Hrun. discriminate.
  - intros v0 c' Hrun. rewrite _get_set_or_delete_unfold in Hrun.
    rewrite (occurrences_unfold k (mkComponent _ _ _ _ _ _ _ _)).
    cbn [children] in *.
    destruct v as [| | | |ch|l|l]; try discriminate.
    + destruct (decide (get_id ch = Some k)) as [Hid|Hid].
      * injection Hrun as _ <-. simpl. lia.
      * destruct (_get_set_or_delete ch k Delete new_item)
          as [r ch'] eqn:Hch.
        pose proof (_get_set_or_delete_get_id _ _ _ _ _ _ Hch) as Hsame.
        destruct r as [v1|[arg| |]]; try discriminate.
        injection Hrun as -> <-.
        rewrite occurrences_unfold. cbn [children set_children].
        rewrite Hsame, decide_False by exact Hid.
        exact (IHc v0 ch' Hch).
    + destruct (search_entries true k Delete new_item l)
        as [r l'] eqn:Hr.
      injection Hrun as -> <-. rewrite occurrences_unfold.
      cbn [children set_children]. exact (IHc true v0 l' Hr).
    + destruct (search_entries false k Delete new_item l)
        as [r l'] eqn:Hr.
      injection Hrun as -> <-. rewrite occurrences_unfold.
      cbn [children set_children]. exact (IHc false v0 l' Hr).
Qed.
End delete.

Lemma check_indexable (c : Component) :
  _check_if_has_indexable_children c
  = if is_indexable (children c) then inl tt else inr (KeyError None).
Proof.
  unfold _check_if_has_indexable_children.
  destruct (children c) as [[]|]; reflexivity.
Qed.

Lemma iter_ids (l : list pyval) :
  flat_map (fun t =>
              match t with
              | VComp c =>
                  match attr_id c with
                  | None | Some VNone => []
                  | Some id => [id]
                  end
              | _ => []
              end) l
  = preorder_ids (nodes_of l).
Proof.
  induction l as [|t l IH]; [reflexivity|].
  cbn [flat_map]. rewrite IH.
  destruct t as [| | | |c| |]; try reflexivity.
  unfold preorder_ids, nodes_of, non_null_id. simpl.
  destruct (attr_id c) as [[]|]; reflexivity.
Qed.

(** [__iter__] yields the non-null ids of the Nodes walked. *)
Lemma iter_walked (c : Component) :
  __iter__ c = (preorder_ids (walked c).1, (walked c).2).
Proof.
  unfold __iter__. rewrite <- traverse_nodes.
  destruct (traverse c) as [yielded stop]. cbn [fst snd].
  rewrite iter_ids. reflexivity.
Qed.

(** The navigator formats nothing: it raises no [ValueError]. *)
Lemma search_entries_no_value_error (m : bool) (id : string)
    (op : operation) (new_item : pyval) (l : list pyval) :
  Forall (fun v =>
            match v with
            | VComp c =>
                (_get_set_or_delete c id op new_item).1 <> inr ValueError
            | _ => True
            end) l ->
  (search_entries m id op new_item l).1 <> inr ValueError.
Proof.
  induction 1 as [|item rest Hitem _ IH]; [discriminate|].
  cbn [search_entries].
  destruct (decide (item_id item = Some id)).
  - destruct op, m; discriminate.
  - destruct (search_entries m id op new_item rest) as [r rest'].
    destruct item as [| | | |ci| |]; try exact IH.
    destruct (_get_set_or_delete ci id op new_item) as [[v|[arg| |]] ci'];
      cbn in *; try discriminate; try exact IH.
    contradiction.
Qed.

Lemma _get_set_or_delete_no_value_error (c : Component) (id : string)
    (op : operation) (new_item : pyval) :
  (_get_set_or_delete c id op new_item).1 <> inr ValueError.
Proof.
  induction c using Component_tree_ind with
    (Q := fun v =>
            match v with
            | VComp c =>
                (_get_set_or_delete c id op new_item).1 <> inr ValueError
            | VList l | VTuple l =>
                forall m,
                  (search_entries m id op new_item l).1 <> inr ValueError
            | _ => True
            end);
    try exact I; try assumption;
    try (intros m; apply search_entries_no_value_error;
         eapply Forall_impl; [eassumption|];
         intros [] ?; eauto; fail).
  - rewrite _get_set_or_delete_unfold. discriminate.
  - rewrite _get_set_or_delete_unfold. cbn [children].
    destruct v as [| | | |ch|l|l]; try discriminate.
    + destruct (decide (get_id ch = Some id)).
      * destruct op; discriminate.
      * destruct (_get_set_or_delete ch id op new_item)
          as [[v|[arg| |]] ch']; cbn in *; try discriminate.
        contradiction.
    + specialize (IHc true).
      destruct (search_entries true id op new_item l). exact IHc.
    + specialize (IHc false).
      destruct (search_entries false id op new_item l). exact IHc.
Qed.

Lemma search_entries_failure (m : bool) (id : string) (op : operation)
    (new_item : pyval) (l l' : list pyval) (e : exn) :
  search_entries m id op new_item l = (inr e, l') ->
  e = KeyError (Some id) \/ e = TypeError.
Proof.
  revert l'. induction l as [|item rest IH]; intros l' Hrun.
  - injection Hrun as <- _. auto.
  - cbn [search_entries] in Hrun.
    destruct (decide (item_id item = Some id)).
    + destruct op, m; try discriminate; injection Hrun as <- _; auto.
    + destruct (search_entries m id op new_item rest) as [r rest'] eqn:Hr.
      destruct item as [| | | |ci| |];
        try (injection Hrun as -> _; eapply IH; reflexivity).
      pose proof (_get_set_or_delete_no_value_error ci id op new_item)
        as Hci.
      destruct (_get_set_or_delete ci id op new_item) as [[v|[arg| |]] ci'].
      * discriminate.
      * injection Hrun as -> _. eapply IH; reflexivity.
      * injection Hrun as <- _. auto.
      * exfalso. apply Hci. reflexivity.
Qed.

Lemma indexable_failure (self self' : Component) (id : string)
    (op : operation) (new_item : pyval) (e : exn) :
  is_indexable (children self) = true ->
  _get_set_or_delete self id op new_item = (inr e, self') ->
  e = KeyError (Some id) \/ e = TypeError.
Proof.
  intros Hshape Hrun. rewrite _get_set_or_delete_unfold in Hrun.
  destruct (children self) as [[| | | |ch|l|l]|]; try discriminate.
  - destruct (decide (get_id ch = Some id)).
    + destruct op; discriminate.
    + pose proof (_get_set_or_delete_no_value_error ch id op new_item)
        as Hch.
      destruct (_get_set_or_delete ch id op new_item) as [[v|[arg| |]] ch'];
        try discriminate; injection Hrun as <- _; auto.
      exfalso. apply Hch. reflexivity.
  - destruct (search_entries true id op new_item l) as [r l'] eqn:Hr.
    injection Hrun as -> _. eapply search_entries_failure; eauto.
  - destruct (search_entries false id op new_item l) as [r l'] eqn:Hr.
    injection Hrun as -> _. eapply search_entries_failure; eauto.
Qed.

(** ** The scenarios of the specification, run *)

Example scenario_iter :
  list_of (__iter__ (scenario_root false false))
  = inl [VStr "a"; VStr "b"; VStr "c"].
Proof. reflexivity. Qed.

Example scenario_get_c :
  (__getitem__ (scenario_root false false) "c").1
  = inl (VComp (scenario_C false)).
Proof. reflexivity. Qed.

Example scenario_delete_b :
  let root' := (__delitem__ (scenario_root false false) "b").2 in
  children root' = Some (VList [VComp (scenario_A false); VStr "text"])
  /\ (__getitem__ root' "c").1 = inr (KeyError (Some "c"))
  /\ list_of (__iter__ root') = inl [VStr "a"].
Proof. repeat split. Qed.

Example scenario_set_c :
  children (__setitem__ (scenario_root false false) "c" (VStr "new")).2
  = Some (VList [VComp (scenario_A false); VStr "text";
                 VComp (set_children (scenario_B false)
                          (Some (VList [VStr "new"])))]).
Proof. reflexivity. Qed.

Example tuple_entry_cannot_be_deleted :
  __delitem__ tuple_root "k" = (inr TypeError, tuple_root)
  /\ (__getitem__ tuple_root "k").1 = inl (VComp (twin "A")).
Proof. split; reflexivity. Qed.

Example two_libraries_collected :
  (get_inferred_resources two_libraries (fun _ => ∅)).1 = inl [0; 1; 2]
  /\ (get_inferred_resources two_libraries (fun _ => ∅)).2 0 !! "namespace"
     = Some "html"
  /\ (get_inferred_resources two_libraries (fun _ => ∅)).2 2 !! "namespace"
     = Some "core"
  /\ (get_inferred_resources two_libraries (fun _ => ∅)).2 5 !! "namespace"
     = None.
Proof. repeat split. Qed.

(** ** The claims about the navigator and the traversal *)

(** C1: when exactly one descendant Node [n] of [T] carries the id [k],
    [T[k]] returns [n], and leaves the tree as it is. *)
Theorem C1_get_unique (T : Component) (k : string) (n : Component) :
  filter (fun d => get_id d = Some k) (descendants T) = [n] ->
  __getitem__ T k = (inl (VComp n), T).
Proof.
  intros Honce. unfold __getitem__.
  rewrite (_get_set_or_delete_get k VNone T).
  fold (occurrences k T). unfold occurrences. rewrite Honce. reflexivity.
Qed.

Lemma C1_get_unique_witness :
  filter (fun d => get_id d = Some "c")
    (descendants (scenario_root false false)) = [scenario_C false]
  /\ __getitem__ (scenario_root false false) "c"
     = (inl (VComp (scenario_C false)), scenario_root false false).
Proof.
  split; [reflexivity|]. apply (C1_get_unique _ "c"). reflexivity.
Defined.

(** C2 (as stated, refuted): on a node whose [children] is a string, [get]
    fails with the bare [KeyError] of the structure check, not with
    [KeyError(id)]. *)
Lemma C2_scalar_children_structure_failure :
  children scalar_node = Some (VStr "text")
  /\ (__getitem__ scalar_node "x").1 = inr (KeyError None)
  /\ (__getitem__ scalar_node "x").1 <> inr (KeyError (Some "x")).
Proof. repeat split. discriminate. Qed.

(** C2 (amended): on every node whose [children] is neither a Node nor a
    sequence (absent, [None], a scalar), the structure check raises its
    bare [KeyError], and [get], [set] and [delete] fail with that very
    failure, which carries no id, leaving the node as it was. *)
Theorem C2_not_indexable_fails_at_check (self : Component) (id : string)
    (x : pyval) :
  is_indexable (children self) = false ->
  _check_if_has_indexable_children self = inr (KeyError None)
  /\ __getitem__ self id = (inr (KeyError None), self)
  /\ __setitem__ self id x = (inr (KeyError None), self)
  /\ __delitem__ self id = (inr (KeyError None), self).
Proof.
  intros Hshape. rewrite check_indexable, Hshape.
  unfold __getitem__, __setitem__, __delitem__.
  rewrite !_get_set_or_delete_unfold.
  destruct (children self) as [[]|]; try discriminate; auto.
Qed.

Lemma C2_not_indexable_fails_at_check_witness :
  is_indexable (children scalar_node) = false
  /\ _check_if_has_indexable_children scalar_node = inr (KeyError None)
  /\ __getitem__ scalar_node "x" = (inr (KeyError None), scalar_node)
  /\ __setitem__ scalar_node "x" VNone = (inr (KeyError None), scalar_node)
  /\ __delitem__ scalar_node "x" = (inr (KeyError None), scalar_node).
Proof.
  split; [reflexivity|].
  apply (C2_not_indexable_fails_at_check scalar_node "x" VNone).
  reflexivity.
Defined.

(** C3 (as stated, refuted): on the scenario tree [len(root)] is not 5. *)
Lemma C3_len_scenario_not_5 : __len__ (scenario_root false false) <> 5.
Proof. discriminate. Qed.

(** C3 (amended): on the scenario tree [len(root)] is 4: one for each of
    A, "text" and B, plus [len(B)], which is one for C; whether A and C
    have [children] unset or set to [None]. *)
Theorem C3_len_scenario (ua uc : bool) : __len__ (scenario_root ua uc) = 4.
Proof. destruct ua, uc; reflexivity. Qed.

(** C6: when [set(id, x)] or [delete(id)] raises, whatever it raises, the
    tree it leaves is the tree it was given. *)
Theorem C6_failure_leaves_tree (T T' : Component) (id : string) (x : pyval)
    (e : exn) :
  __setitem__ T id x = (inr e, T') \/ __delitem__ T id = (inr e, T') ->
  T' = T.
Proof.
  intros [Hset|Hdel].
  - exact (_get_set_or_delete_fails_clean id Set_item x T e T' Hset).
  - exact (_get_set_or_delete_fails_clean id Delete VNone T e T' Hdel).
Qed.

Lemma C6_failure_leaves_tree_witness :
  (__delitem__ (scenario_root false false) "zzz").1
  = inr (KeyError (Some "zzz"))
  /\ (__delitem__ (scenario_root false false) "zzz").2
     = scenario_root false false.
Proof.
  split; [reflexivity|].
  apply (C6_failure_leaves_tree (scenario_root false false) _ "zzz" VNone
           (KeyError (Some "zzz"))).
  right. reflexivity.
Defined.

(** C7 (as stated, refuted): a Node may carry a number as its id, and
    [get] walks past it; but iterating the tree raises [ValueError] when
    the path label of that Node is formatted, after the ids before it. *)
Lemma C7_number_id_raises :
  (__getitem__ numbered_root "b").1 = inl (VComp (scenario_B false))
  /\ __iter__ numbered_root = ([VStr "a"], Some ValueError)
  /\ list_of (__iter__ numbered_root) = inr ValueError.
Proof. repeat split. Qed.

(** C7 (amended): iterating [T] yields the non-null ids of its descendant
    Nodes, in depth-first pre-order, left to right, the root excluded, up
    to the first Node whose path label cannot be formatted (its id is true
    and is not a string), where it raises.  When every descendant has a
    label that can be formatted, [list(iter(T))] is the list of all these
    ids and nothing is raised; scalar entries and Nodes without an id
    contribute nothing. *)
Theorem C7_iter_preorder_ids (T : Component) :
  __iter__ T = (preorder_ids (walked T).1, (walked T).2)
  /\ (Forall (fun d => label_error d = None) (descendants T) ->
      list_of (__iter__ T) = inl (preorder_ids (descendants T))).
Proof.
  split; [apply iter_walked|].
  intros Hlabels. rewrite iter_walked. unfold walked.
  rewrite (until_error_clean _ _ Hlabels). reflexivity.
Qed.

Lemma C7_iter_preorder_ids_witness :
  Forall (fun d => label_error d = None)
    (descendants (scenario_root false false))
  /\ list_of (__iter__ (scenario_root false false))
     = inl [VStr "a"; VStr "b"; VStr "c"].
Proof.
  assert (Hlabels : Forall (fun d => label_error d = None)
                      (descendants (scenario_root false false)))
    by (repeat constructor).
  split; [exact Hlabels|].
  apply (C7_iter_preorder_ids (scenario_root false false)). exact Hlabels.
Defined.

(** C9: the structure failure and the not-found failure are both
    [KeyError]s.  Let entry [i] of the sequence [self.children] be a Node
    [n] whose [children] is not indexable (absent, [None], a scalar) and
    whose id is not the one looked for.  The call on [n] raises the bare
    [KeyError] of the structure check, of the class of [KeyError(id)]; the
    loop on [self] catches it and goes on with the next sibling; what the
    call on [self] raises is never that structure failure; and whatever
    [get] raises on any tree, structure failure or not found, is a
    [KeyError]. *)
Theorem C9_structure_failure_caught (self n : Component) (id : string)
    (op : operation) (new_item : pyval) (m : bool) (l rest : list pyval)
    (i : nat) :
  children self = Some (mk_seq m l) ->
  l !! i = Some (VComp n) ->
  is_indexable (children n) = false ->
  get_id n <> Some id ->
  _get_set_or_delete n id op new_item = (inr (KeyError None), n)
  /\ class_of (KeyError None) = class_of (KeyError (Some id))
  /\ search_sequence (fun item => _get_set_or_delete item id op new_item)
       id op new_item (VComp n :: rest) i self
     = search_sequence (fun item => _get_set_or_delete item id op new_item)
         id op new_item rest (S i) self
  /\ (forall e self',
         _get_set_or_delete self id op new_item = (inr e, self') ->
         e = KeyError (Some id) \/ e = TypeError)
  /\ (forall T e T',
         __getitem__ T id = (inr e, T') -> class_of e = KeyErrorT).
Proof.
  intros Hch Hentry Hshape Hid.
  assert (Hn : _get_set_or_delete n id op new_item = (inr (KeyError None), n)).
  { rewrite _get_set_or_delete_unfold.
    destruct (children n) as [[]|]; try discriminate; reflexivity. }
  split; [exact Hn|]. split; [reflexivity|]. split.
  - cbn [search_sequence item_id].
    rewrite decide_False by exact Hid. rewrite Hn.
    unfold store_entry.
    destruct m; cbn [mk_seq] in Hch; rewrite Hch;
      rewrite (list_insert_id _ _ _ Hentry);
      rewrite <- Hch, set_children_same; reflexivity.
  - split.
    + intros e self' Hrun.
      apply (indexable_failure self self' id op new_item e); [|exact Hrun].
      rewrite Hch. destruct m; reflexivity.
    + intros T e T'. unfold __getitem__.
      rewrite (_get_set_or_delete_get id VNone T).
      destruct (head (occurrences id T)); intros [= <- _]; reflexivity.
Qed.

Lemma C9_structure_failure_caught_witness :
  _get_set_or_delete scalar_node "k" Get VNone
  = (inr (KeyError None), scalar_node)
  /\ __getitem__ stray_root "k" = (inl (VComp (twin "B")), stray_root).
Proof.
  split.
  - apply (C9_structure_failure_caught stray_root scalar_node "k" Get VNone
             true [VComp scalar_node; VComp (twin "B")] [VComp (twin "B")] 0);
      [reflexivity|reflexivity|reflexivity|discriminate].
  - reflexivity.
Defined.

(** ** The claim about the serialiser *)

(** C4 (as stated, refuted): a [foo] holding the [UNDEFINED] sentinel is
    serialised, not omitted. *)
Lemma C4_undefined_value_serialised :
  props (to_plotly_json (scenario_props (Some VUndefined))) !! "foo"
  = Some (Value VUndefined)
  /\ to_plotly_json (scenario_props (Some VUndefined))
     <> {| props := Value <$> {[ "id" := VStr "a"; "bar" := VNum 1 ]};
           type := "A"; namespace := "ns" |}.
Proof.
  split; [reflexivity|].
  intros Heq. apply (f_equal (fun j => props j !! "foo")) in Heq.
  vm_compute in Heq. discriminate.
Qed.

(** C4 (amended): the scenario node serialises to its type, its namespace
    and the properties set on the instance: [{id: "a", bar: 1}] when [foo]
    is not set, and [{id: "a", foo: v, bar: 1}] when [foo] holds [v],
    whatever [v] is, the [UNDEFINED] sentinel included. *)
Theorem C4_serialise_set_properties (foo : option pyval) :
  to_plotly_json (scenario_props foo)
  = {| props :=
         Value <$>
         match foo with
         | Some v => {[ "id" := VStr "a"; "foo" := v; "bar" := VNum 1 ]}
         | None => {[ "id" := VStr "a"; "bar" := VNum 1 ]}
         end;
       type := "A"; namespace := "ns" |}.
Proof. destruct foo; reflexivity. Qed.

(** ** The claim about the resource extractor *)

Lemma extract_component (self : Resources) (st : extraction)
    (c : Component) :
  extract_resource_from_component self st (VComp c)
  = if decide (_namespace c ∈ namespaces st) then st
    else {| namespaces := namespaces st ++ [_namespace c];
            resources := resources st ++ declared (resource_name self) c;
            dicts := foldl (tag (_namespace c)) (dicts st)
                       (declared (resource_name self) c) |}.
Proof.
  unfold extract_resource_from_component, declared.
  destruct (decide (_namespace c ∈ namespaces st)); [reflexivity|].
  destruct (getattr_dist c (resource_name self)); cbn;
    rewrite ?app_nil_r; reflexivity.
Qed.

Lemma extract_fold (self : Resources) (items : list pyval) (st : extraction) :
  foldl (extract_resource_from_component self) st items
  = let cs := first_per_namespace (namespaces st) (nodes_of items) in
    {| namespaces := namespaces st ++ (_namespace <$> cs);
       resources := resources st ++ (cs ≫= declared (resource_name self));
       dicts := tag_all (resource_name self) (dicts st) cs |}.
Proof.
  revert st. induction items as [|item items IH]; intros st.
  - destruct st. cbn. rewrite !app_nil_r. reflexivity.
  - cbn [foldl]. rewrite IH. clear IH.
    destruct item as [| | | |c| |]; try reflexivity.
    rewrite extract_component.
    change (nodes_of (VComp c :: items)) with (c :: nodes_of items).
    cbn [first_per_namespace].
    destruct (decide (_namespace c ∈ namespaces st)); [reflexivity|].
    cbn. rewrite <- !app_assoc. reflexivity.
Qed.

Lemma get_inferred_resources_collected (self : Resources) (h : store) :
  get_inferred_resources self h
  = let cs := first_per_namespace []
                (layout self :: (walked (layout self)).1) in
    (match (walked (layout self)).2 with
     | None => inl (cs ≫= declared (resource_name self))
     | Some e => inr e
     end,
     tag_all (resource_name self) h cs).
Proof.
  unfold get_inferred_resources.
  rewrite <- (traverse_nodes (layout self)).
  destruct (traverse (layout self)) as [yielded stop]. cbn [fst snd].
  change (foldl (extract_resource_from_component self)
            (extract_resource_from_component self
               {| namespaces := []; resources := []; dicts := h |}
               (VComp (layout self))) yielded)
    with (foldl (extract_resource_from_component self)
            {| namespaces := []; resources := []; dicts := h |}
            (VComp (layout self) :: yielded)).
  rewrite extract_fold.
  cbn [nodes_of omap list_omap namespaces resources dicts].
  change (omap _ yielded) with (nodes_of yielded).
  reflexivity.
Qed.

Lemma first_per_namespace_fresh (walk : list Component) (seen : list string) :
  NoDup (_namespace <$> first_per_namespace seen walk)
  /\ forall c, c ∈ first_per_namespace seen walk -> _namespace c ∉ seen.
Proof.
  revert seen. induction walk as [|x rest IH]; intros seen.
  - split; [constructor|]. intros c Hc. inversion Hc.
  - cbn [first_per_namespace].
    destruct (decide (_namespace x ∈ seen)) as [Hx|Hx]; [apply IH|].
    destruct (IH (seen ++ [_namespace x])) as [Hnodup Hfresh].
    split.
    + cbn. constructor; [|exact Hnodup].
      intros Hin. apply list_elem_of_fmap in Hin as (c & Hns & Hc).
      apply (Hfresh c Hc). rewrite <- Hns. set_solver.
    + intros c Hc. apply elem_of_cons in Hc as [->|Hc]; [exact Hx|].
      specialize (Hfresh c Hc). set_solver.
Qed.

Lemma first_per_namespace_first (walk : list Component) (seen : list string)
    (c : Component) :
  c ∈ first_per_namespace seen walk
  <-> exists pre post,
      walk = pre ++ c :: post
      /\ (_namespace c ∉ seen)
      /\ (_namespace c ∉ (_namespace <$> pre)).
Proof.
  revert seen. induction walk as [|x rest IH]; intros seen.
  - split; [intros Hc; inversion Hc|].
    intros (pre & post & Hw & _). destruct pre; discriminate.
  - cbn [first_per_namespace].
    destruct (decide (_namespace x ∈ seen)) as [Hx|Hx].
    + rewrite IH. split.
      * intros (pre & post & -> & Hseen & Hpre).
        exists (x :: pre), post. split; [reflexivity|]. split; [exact Hseen|].
        cbn. intros Hin. apply elem_of_cons in Hin as [Heq|Hin]; [|tauto].
        apply Hseen. rewrite Heq. exact Hx.
      * intros (pre & post & Hw & Hseen & Hpre).
        destruct pre as [|y pre]; cbn in Hw; injection Hw as -> ->.
        -- tauto.
        -- exists pre, post. split; [reflexivity|]. split; [exact Hseen|].
           intros Hin. apply Hpre. cbn. set_solver.
    + rewrite elem_of_cons, IH. split.
      * intros [->|(pre & post & -> & Hseen & Hpre)].
        -- exists [], rest. split; [reflexivity|]. split; [exact Hx|].
           cbn. set_solver.
        -- exists (x :: pre), post. split; [reflexivity|].
           split; [set_solver|]. cbn. set_solver.
      * intros (pre & post & Hw & Hseen & Hpre).
        destruct pre as [|y pre]; cbn in Hw; injection Hw as -> ->.
        -- left. reflexivity.
        -- right. exists pre, post. split; [reflexivity|].
           cbn in Hpre. set_solver.
Qed.

Lemma tag_list_other (ns : string) (l : list nat) (h : store) (r : nat) :
  r ∉ l -> foldl (tag ns) h l r = h r.
Proof.
  revert h. induction l as [|x l IH]; intros h Hr; [reflexivity|].
  cbn [foldl]. rewrite IH by set_solver.
  unfold tag. rewrite decide_False by set_solver. reflexivity.
Qed.

Lemma tag_list_namespace (ns : string) (l : list nat) (h : store) (r : nat) :
  r ∈ l \/ h r !! "namespace" = Some ns ->
  foldl (tag ns) h l r !! "namespace" = Some ns.
Proof.
  revert h. induction l as [|x l IH]; intros h Hr.
  - destruct Hr as [Hr|Hr]; [inversion Hr|exact Hr].
  - cbn [foldl]. apply IH.
    destruct (decide (r = x)) as [->|Hne].
    + right. unfold tag. rewrite decide_True by reflexivity.
      apply lookup_insert_eq.
    + destruct Hr as [Hr|Hr]; [left; set_solver|].
      right. unfold tag. rewrite decide_False by exact Hne. exact Hr.
Qed.

Lemma tag_all_other (name : string) (cs : list Component) (h : store)
    (r : nat) :
  (forall c, c ∈ cs -> r ∉ declared name c) -> tag_all name h cs r = h r.
Proof.
  revert h. induction cs as [|c cs IH]; intros h Hr; [reflexivity|].
  unfold tag_all in *. cbn [foldl]. rewrite IH.
  - apply tag_list_other, Hr. set_solver.
  - intros c' Hc'. apply Hr. set_solver.
Qed.

Lemma tag_all_app (name : string) (cs1 cs2 : list Component) (h : store) :
  tag_all name h (cs1 ++ cs2) = tag_all name (tag_all name h cs1) cs2.
Proof. unfold tag_all. apply foldl_app. Qed.

(** The last collected component that lists a dict decides its tag. *)
Lemma tag_all_last (name : string) (pre post : list Component)
    (c : Component) (h : store) (r : nat) :
  r ∈ declared name c ->
  (forall c', c' ∈ post -> r ∉ declared name c') ->
  tag_all name h (pre ++ c :: post) r !! "namespace" = Some (_namespace c).
Proof.
  intros Hr Hpost.
  rewrite tag_all_app.
  change (c :: post) with ([c] ++ post). rewrite tag_all_app.
  rewrite tag_all_other by exact Hpost.
  unfold tag_all at 1. cbn [foldl].
  apply tag_list_namespace. left. exact Hr.
Qed.

Lemma tag_list_lookup (ns : string) (l : list nat) (h : store) (r : nat) :
  foldl (tag ns) h l r
  = if decide (r ∈ l) then <["namespace" := ns]> (h r) else h r.
Proof.
  revert h. induction l as [|x l IH]; intros h; [reflexivity|].
  cbn [foldl]. rewrite IH. unfold tag.
  destruct (decide (r = x)) as [->|Hne].
  - rewrite (decide_True (P := x ∈ x :: l)) by apply list_elem_of_here.
    destruct (decide (x ∈ l)); [apply insert_insert_eq|reflexivity].
  - destruct (decide (r ∈ l)) as [Hin|Hout].
    + rewrite decide_True by (apply list_elem_of_further; exact Hin).
      reflexivity.
    + rewrite decide_False; [reflexivity|].
      intros Hin. apply elem_of_cons in Hin as [?|?]; contradiction.
Qed.

(** What the extraction leaves behind a reference depends on the dict it
    found there and on the last component that lists it. *)
Lemma tag_all_lookup (name : string) (cs : list Component) (h : store)
    (r : nat) :
  tag_all name h cs r
  = match last_tag name cs r with
    | Some ns => <["namespace" := ns]> (h r)
    | None => h r
    end.
Proof.
  induction cs as [|c cs IH] using rev_ind; [reflexivity|].
  rewrite tag_all_app. unfold tag_all at 1. cbn [foldl].
  rewrite tag_list_lookup, IH. unfold last_tag.
  rewrite omap_app. cbn [omap list_omap].
  destruct (decide (r ∈ declared name c)).
  - rewrite last_snoc.
    destruct (last _); [apply insert_insert_eq|reflexivity].
  - rewrite app_nil_r. reflexivity.
Qed.

(** C8 (as stated, refuted): when one dict object is listed under two
    namespaces, the entry collected for the first namespace ends up tagged
    with the second. *)
Lemma C8_shared_dict_tagged_last :
  0 ∈ declared "_js_dist" (layout shared_dict)
  /\ _namespace (layout shared_dict) = "html"
  /\ (get_inferred_resources shared_dict (fun _ => ∅)).1 = inl [0; 0]
  /\ (get_inferred_resources shared_dict (fun _ => ∅)).2 0 !! "namespace"
     = Some "core".
Proof. split; [apply list_elem_of_here|]. repeat split. Qed.

(** C8 (amended): the extractor looks at the root and then at the Nodes
    walked below it, in traversal order, and keeps one component per
    namespace, the first one walked.  Writing [collected] for those
    components: a component is collected exactly when no component walked
    before it has its namespace; no two collected components share a
    namespace; the list returned is the concatenation of the declared
    lists of the collected components (none for a component that declares
    no list), unless the traversal raised; every dict is left as it was
    found, but for the tag [namespace] of the last collected component
    that lists it, if one does: the namespace of the component it was
    collected for when no later collected component lists the same dict
    object. *)
Theorem C8_one_list_per_namespace (self : Resources) (h : store) :
  let name := resource_name self in
  let walk := layout self :: (walked (layout self)).1 in
  let collected := first_per_namespace [] walk in
  (forall c, c ∈ collected
             <-> exists pre post,
                 walk = pre ++ c :: post
                 /\ (_namespace c ∉ (_namespace <$> pre)))
  /\ NoDup (_namespace <$> collected)
  /\ (get_inferred_resources self h).1
     = match (walked (layout self)).2 with
       | None => inl (collected ≫= declared name)
       | Some e => inr e
       end
  /\ (forall r,
         (get_inferred_resources self h).2 r
         = match last_tag name collected r with
           | Some ns => <["namespace" := ns]> (h r)
           | None => h r
           end)
  /\ (forall pre c post r,
         collected = pre ++ c :: post ->
         r ∈ declared name c ->
         (forall c', c' ∈ post -> r ∉ declared name c') ->
         (get_inferred_resources self h).2 r !! "namespace"
         = Some (_namespace c))
  /\ (forall r,
         (forall c, c ∈ collected -> r ∉ declared name c) ->
         (get_inferred_resources self h).2 r = h r).
Proof.
  intros name walk collected.
  rewrite get_inferred_resources_collected.
  fold name walk collected. cbn [fst snd].
  split; [|split; [|split; [|split; [|split]]]].
  - intros c. unfold collected. rewrite first_per_namespace_first.
    split; intros (pre & post & Hw & Hrest); exists pre, post;
      (split; [exact Hw|]).
    + tauto.
    + split; [|exact Hrest]. intros Hin. inversion Hin.
  - apply first_per_namespace_fresh.
  - reflexivity.
  - intros r. apply tag_all_lookup.
  - intros pre c post r -> Hr Hpost. apply tag_all_last; assumption.
  - intros r Hr. apply tag_all_other. exact Hr.
Qed.

Lemma C8_one_list_per_namespace_witness :
  let after := (get_inferred_resources two_libraries (fun _ => ∅)).2 in
  (get_inferred_resources two_libraries (fun _ => ∅)).1 = inl [0; 1; 2]
  /\ after 0 = {[ "namespace" := "html" ]}
  /\ after 2 = {[ "namespace" := "core" ]}
  /\ after 5 = ∅.
Proof.
  intros after.
  pose proof (C8_one_list_per_namespace two_libraries (fun _ => ∅)) as Hrun.
  cbv zeta in Hrun. destruct Hrun as (_ & _ & Hlist & Htag & _ & _).
  split; [exact Hlist|].
  split; [exact (Htag 0)|]. split; [exact (Htag 2)|exact (Htag 5)].
Defined.

(** ** The claim about the registry cache *)

Section registry_cache.
Import ComponentRegistry.

Lemma extend_from_other (name k : string) (todo : list string) (s : state) :
  k <> name ->
  __dist_cache (extend_from name todo s).2 !! k = __dist_cache s !! k.
Proof.
  intros Hk. revert s. induction todo as [|m rest IH]; intros s.
  - reflexivity.
  - cbn [extend_from]. destruct (sys_modules s !! m); [|reflexivity].
    rewrite IH. cbn. apply lookup_insert_ne. congruence.
Qed.

Lemma extend_from_result (name : string) (todo : list string)
    (s s1 : state) (l : list nat) :
  is_Some (__dist_cache s !! name) ->
  extend_from name todo s = (inl l, s1) ->
  __dist_cache s1 !! name = Some l.
Proof.
  revert s. induction todo as [|m rest IH]; intros s [l0 Hl0] Hrun.
  - cbn in Hrun. rewrite Hl0 in Hrun. injection Hrun as <- <-. exact Hl0.
  - cbn [extend_from] in Hrun.
    destruct (sys_modules s !! m); [|discriminate].
    apply IH in Hrun; [exact Hrun|].
    cbn. rewrite lookup_insert_eq. eauto.
Qed.

Lemma extend_from_loaded (name : string) (todo : list string) (s : state) :
  (forall m, m ∈ todo -> is_Some (sys_modules s !! m)) ->
  (extend_from name todo s).1
  = inl (default [] (__dist_cache s !! name)
         ++ (todo ≫= fun m =>
               default [] (sys_modules s !! m ≫= fun module =>
                           module !! name))).
Proof.
  revert s. induction todo as [|m rest IH]; intros s Hloaded.
  - cbn. rewrite app_nil_r. reflexivity.
  - cbn [extend_from].
    destruct (Hloaded m (list_elem_of_here _ _)) as [module Hm].
    rewrite Hm. rewrite IH.
    + cbn. rewrite lookup_insert_eq, Hm. cbn.
      rewrite <- app_assoc. reflexivity.
    + intros m' Hm'. cbn. apply Hloaded. apply list_elem_of_further, Hm'.
Qed.

Lemma get_resources_hit (name : string) (order : list string) (s : state)
    (l : list nat) :
  __dist_cache s !! name = Some l -> l <> [] ->
  get_resources name order s = (inl l, s).
Proof.
  intros Hc Hl. unfold get_resources. rewrite Hc.
  destruct l; [contradiction|reflexivity].
Qed.

Lemma get_resources_miss (name : string) (order : list string) (s : state) :
  __dist_cache s !! name = Some [] ->
  get_resources name order s = compute_resources name order s.
Proof. intros Hc. unfold get_resources. rewrite Hc. reflexivity. Qed.

Lemma get_resources_cached (name : string) (order : list string)
    (s s1 : state) (l : list nat) :
  get_resources name order s = (inl l, s1) ->
  __dist_cache s1 !! name = Some l.
Proof.
  unfold get_resources, compute_resources. intros Hrun.
  assert (Hcompute :
           extend_from name order
             (set_cache s (<[name := []]> (__dist_cache s))) = (inl l, s1) ->
           __dist_cache s1 !! name = Some l).
  { apply extend_from_result. cbn. rewrite lookup_insert_eq. eauto. }
  destruct (__dist_cache s !! name) as [[|r cached]|] eqn:Hc; auto.
  injection Hrun as <- <-. exact Hc.
Qed.

Lemma get_resources_other (name k : string) (order : list string)
    (s : state) :
  k <> name ->
  __dist_cache (get_resources name order s).2 !! k = __dist_cache s !! k.
Proof.
  intros Hk. unfold get_resources, compute_resources.
  assert (Hcompute :
           __dist_cache
             (extend_from name order
                (set_cache s (<[name := []]> (__dist_cache s)))).2 !! k
           = __dist_cache s !! k).
  { rewrite extend_from_other by exact Hk.
    cbn. apply lookup_insert_ne. congruence. }
  destruct (__dist_cache s !! name) as [[|r cached]|]; auto.
Qed.

Lemma step_keeps_cache (name : string) (l : list nat) (ev : event)
    (s : state) :
  l <> [] \/ (forall order, ev <> GetResources name order) ->
  __dist_cache s !! name = Some l ->
  __dist_cache (step s ev) !! name = Some l.
Proof.
  intros Hok Hc. destruct ev as [cls m|m module|name' order]; cbn.
  - unfold ComponentMeta.__new__. case_decide; exact Hc.
  - exact Hc.
  - destruct (decide (name' = name)) as [->|Hne].
    + destruct Hok as [Hl|Hev]; [|exfalso; exact (Hev order eq_refl)].
      rewrite (get_resources_hit name order s l Hc Hl). exact Hc.
    + rewrite get_resources_other by congruence. exact Hc.
Qed.

Lemma run_keeps_cache (name : string) (l : list nat) (evs : list event)
    (s : state) :
  l <> []
  \/ Forall (fun ev => forall order, ev <> GetResources name order) evs ->
  __dist_cache s !! name = Some l ->
  __dist_cache (run evs s) !! name = Some l.
Proof.
  revert s. induction evs as [|ev evs IH]; intros s Hok Hc; [exact Hc|].
  unfold run in *. cbn [foldl]. apply IH.
  - destruct Hok as [Hl|Hevs]; [left; exact Hl|].
    right. inversion Hevs; assumption.
  - apply step_keeps_cache; [|exact Hc].
    destruct Hok as [Hl|Hevs]; [left; exact Hl|].
    right. inversion Hevs; assumption.
Qed.

(** C10: let a call [get_resources(name)] return the list [l], and let
    classes be created, modules be imported and [get_resources] be called
    afterwards, in any order.  If [l] is not empty, a later call with
    [name] returns [l] again and changes nothing, whatever was registered
    in between.  If [l] is empty and [name] was not asked for in between,
    the next call with [name] runs the computation afresh: over loaded
    modules it returns the lists of the modules of the registry as it is
    then, in the order [order'] in which that call iterates the
    registry.  All of this holds in whatever order the calls iterate the
    registry. *)
Theorem C10_cache_only_non_empty (name : string) (order order' : list string)
    (s s1 : state) (l : list nat) (evs : list event) :
  get_resources name order s = (inl l, s1) ->
  let s2 := run evs s1 in
  (l <> [] -> get_resources name order' s2 = (inl l, s2))
  /\ (l = [] ->
      Forall (fun ev => forall o, ev <> GetResources name o) evs ->
      get_resources name order' s2 = compute_resources name order' s2
      /\ (order' ≡ₚ elements (registry s2) ->
          (forall m, m ∈ registry s2 -> is_Some (sys_modules s2 !! m)) ->
          (get_resources name order' s2).1
          = inl (order' ≫= fun m =>
                   default [] (sys_modules s2 !! m ≫= fun module =>
                               module !! name)))).
Proof.
  intros Hrun s2. apply get_resources_cached in Hrun. split.
  - intros Hl. apply get_resources_hit; [|exact Hl].
    apply run_keeps_cache; [left; exact Hl|exact Hrun].
  - intros -> Hevs.
    assert (Hmiss : get_resources name order' s2
                    = compute_resources name order' s2).
    { apply get_resources_miss, run_keeps_cache; [right; exact Hevs|].
      exact Hrun. }
    split; [exact Hmiss|].
    intros Horder Hloaded. rewrite Hmiss. unfold compute_resources.
    rewrite extend_from_loaded.
    + cbn. rewrite lookup_insert_eq. reflexivity.
    + intros m Hm. cbn. apply Hloaded. apply elem_of_elements.
      rewrite <- Horder. exact Hm.
Qed.
End registry_cache.

Lemma C10_cache_only_non_empty_witness :
  let s1 :=
    (ComponentRegistry.get_resources "_js_dist" ["lib_a"] one_library).2 in
  let s2 := run second_library s1 in
  ComponentRegistry.get_resources "_js_dist" ["lib_a"] one_library
  = (inl [1; 2], s1)
  /\ ComponentRegistry.registry s2 = {["lib_a"; "lib_b"]}
  /\ ComponentRegistry.get_resources "_js_dist" ["lib_b"; "lib_a"] s2
     = (inl [1; 2], s2).
Proof.
  intros s1 s2. split; [reflexivity|]. split; [reflexivity|].
  apply (C10_cache_only_non_empty "_js_dist" ["lib_a"] ["lib_b"; "lib_a"]
           one_library s1 [1; 2] second_library);
    [reflexivity|discriminate].
Defined.

(** ** Where the navigator finds, and what it changes *)

Lemma occurrences_nil_Forall (k : string) (l : list Component) :
  filter (fun d => get_id d = Some k) l = [] ->
  Forall (fun d => get_id d <> Some k) l.
Proof.
  induction l as [|d l IH]; intros Hnil; [constructor|].
  rewrite filter_cons in Hnil.
  destruct (decide (get_id d = Some k)); [discriminate|].
  constructor; auto.
Qed.

Lemma Forall_occurrences_nil (k : string) (l : list Component) :
  Forall (fun d => get_id d <> Some k) l ->
  filter (fun d => get_id d = Some k) l = [].
Proof.
  induction 1 as [|d l Hd _ IH]; [reflexivity|].
  rewrite filter_cons, decide_False by exact Hd. exact IH.
Qed.

Section absent.
Variables (k : string) (op : operation) (new_item : pyval).

Lemma search_entries_absent (l : list pyval) :
  Forall (fun v =>
            match v with
            | VComp c =>
                occurrences k c = [] ->
                exists a, _get_set_or_delete c k op new_item
                          = (inr (KeyError a), c)
            | _ => True
            end) l ->
  occurrences_entries k l = [] ->
  forall m, search_entries m k op new_item l = (inr (KeyError (Some k)), l).
Proof.
  induction 1 as [|item rest Hitem _ IH]; intros Hnil m; [reflexivity|].
  rewrite occurrences_entries_cons in Hnil. cbn [search_entries].
  destruct item as [| | | |ci| |];
    try (rewrite decide_False by discriminate; rewrite (IH Hnil m);
         reflexivity).
  apply app_eq_nil in Hnil as [Hid Hnil].
  apply app_eq_nil in Hnil as [Hci Hrest].
  destruct (decide (get_id ci = Some k)) as [|Hne]; [discriminate|].
  change (item_id (VComp ci)) with (get_id ci).
  rewrite decide_False by exact Hne.
  destruct (Hitem Hci) as [a Ha]. rewrite Ha, (IH Hrest m). reflexivity.
Qed.

Lemma _get_set_or_delete_absent (c : Component) :
  occurrences k c = [] ->
  _get_set_or_delete c k op new_item
  = (inr (KeyError (if is_indexable (children c) then Some k else None)), c).
Proof.
  induction c using Component_tree_ind with
    (Q := fun v =>
            match v with
            | VComp c =>
                occurrences k c = [] ->
                _get_set_or_delete c k op new_item
                = (inr (KeyError (if is_indexable (children c)
                                  then Some k else None)), c)
            | VList l | VTuple l =>
                occurrences_entries k l = [] ->
                forall m, search_entries m k op new_item l
                          = (inr (KeyError (Some k)), l)
            | _ => True
            end);
    try exact I; try assumption;
    try (apply search_entries_absent;
         eapply Forall_impl; [eassumption|];
         intros [] ?; eauto; fail).
  - intros _. reflexivity.
  - intros Hnil. rewrite _get_set_or_delete_unfold.
    rewrite occurrences_unfold in Hnil. cbn [children] in *.
    destruct v as [| | | |ch|l|l]; try reflexivity.
    + destruct (decide (get_id ch = Some k)); [discriminate|].
      rewrite (IHc Hnil). reflexivity.
    + rewrite (IHc Hnil true). reflexivity.
    + rewrite (IHc Hnil false). reflexivity.
Qed.

Lemma search_entries_present (l : list pyval) :
  Forall (fun v =>
            match v with
            | VComp c =>
                occurrences k c <> [] ->
                forall a, (_get_set_or_delete c k op new_item).1
                          <> inr (KeyError a)
            | _ => True
            end) l ->
  occurrences_entries k l <> [] ->
  forall m a, (search_entries m k op new_item l).1 <> inr (KeyError a).
Proof.
  induction 1 as [|item rest Hitem _ IH]; intros Hocc m a; [contradiction|].
  rewrite occurrences_entries_cons in Hocc. cbn [search_entries].
  assert (Hskip : occurrences_entries k rest <> [] ->
                  forall x : pyval,
                    (let (r', rest') := search_entries m k op new_item rest in
                     (r', x :: rest')).1 <> inr (KeyError a)).
  { intros Hrest x. specialize (IH Hrest m a).
    destruct (search_entries m k op new_item rest). exact IH. }
  destruct item as [| | | |ci| |];
    try (rewrite decide_False by discriminate; apply Hskip; exact Hocc).
  cbn [item_id].
  destruct (decide (get_id ci = Some k)) as [Hid|Hid].
  - destruct op, m; discriminate.
  - cbn [app] in Hocc.
    destruct (_get_set_or_delete ci k op new_item) as [r ci'] eqn:Hci.
    destruct r as [v|[a'| |]]; try discriminate.
    destruct (occurrences k ci) as [|d occ] eqn:Hoccci.
    + apply Hskip. exact Hocc.
    + exfalso. exact (Hitem ltac:(discriminate) a' eq_refl).
Qed.

Lemma _get_set_or_delete_present (c : Component) :
  occurrences k c <> [] ->
  forall a, (_get_set_or_delete c k op new_item).1 <> inr (KeyError a).
Proof.
  induction c using Component_tree_ind with
    (Q := fun v =>
            match v with
            | VComp c =>
                occurrences k c <> [] ->
                forall a, (_get_set_or_delete c k op new_item).1
                          <> inr (KeyError a)
            | VList l | VTuple l =>
                occurrences_entries k l <> [] ->
                forall m a, (search_entries m k op new_item l).1
                            <> inr (KeyError a)
            | _ => True
            end);
    try exact I; try assumption;
    try (apply search_entries_present;
         eapply Forall_impl; [eassumption|];
         intros [] ?; eauto; fail).
  - intros Hocc. contradiction.
  - intros Hocc a. rewrite _get_set_or_delete_unfold.
    rewrite occurrences_unfold in Hocc. cbn [children] in *.
    destruct v as [| | | |ch|l|l]; try contradiction.
    + destruct (decide (get_id ch = Some k)).
      * destruct op; discriminate.
      * specialize (IHc Hocc).
        destruct (_get_set_or_delete ch k op new_item) as [[v|[a'| |]] ch'];
          try discriminate.
        exfalso. exact (IHc a' eq_refl).
    + specialize (IHc Hocc true a).
      destruct (search_entries true k op new_item l). exact IHc.
    + specialize (IHc Hocc false a).
      destruct (search_entries false k op new_item l). exact IHc.
Qed.
End absent.

Lemma strip_set_children (c : Component) (v : option pyval) :
  strip (set_children c v) = strip c.
Proof. apply set_children_twice. Qed.

Lemma get_id_strip (c : Component) : get_id (strip c) = get_id c.
Proof. apply get_id_set_children. Qed.

Lemma _get_set_or_delete_strip (self self' : Component) (id : string)
    (op : operation) (new_item : pyval) (r : result pyval) :
  _get_set_or_delete self id op new_item = (r, self') ->
  strip self' = strip self.
Proof.
  intros H. destruct (_get_set_or_delete_attrs self id op new_item) as [v Hv].
  rewrite H in Hv. simpl in Hv. subst self'. apply strip_set_children.
Qed.

Lemma _get_set_or_delete_key_error_absent (c c' : Component) (k : string)
    (op : operation) (new_item : pyval) (a : option string) :
  _get_set_or_delete c k op new_item = (inr (KeyError a), c') ->
  occurrences k c = [].
Proof.
  intros Hrun. destruct (occurrences k c) as [|d occ] eqn:Hocc; [reflexivity|].
  exfalso. apply (_get_set_or_delete_present k op new_item c) with (a := a).
  - rewrite Hocc. discriminate.
  - rewrite Hrun. reflexivity.
Qed.

Lemma descendants_entries_placed (new_item : pyval) (ins : list Component)
    (rest : list pyval) :
  replacement Set_item new_item = Some ins ->
  descendants_entries (new_item :: rest) = ins ++ descendants_entries rest.
Proof.
  cbn. intros Hrep.
  destruct new_item; try discriminate; injection Hrep as <-; reflexivity.
Qed.

Ltac reassoc :=
  cbn [app]; rewrite <- ?app_assoc, <- ?app_comm_cons; cbn [app];
  rewrite <- ?app_assoc; reflexivity.

Section replace.
Variables (k : string) (op : operation) (new_item : pyval).
Variable ins : list Component.
Hypothesis Hrep : replacement op new_item = Some ins.

Lemma search_entries_replaces (l : list pyval) :
  Forall (fun v =>
            match v with
            | VComp c =>
                forall v0 c',
                  _get_set_or_delete c k op new_item = (inl v0, c') ->
                  replaced_first k ins (descendants c) (descendants c')
            | _ => True
            end) l ->
  forall m v0 l',
    search_entries m k op new_item l = (inl v0, l') ->
    replaced_first k ins (descendants_entries l) (descendants_entries l').
Proof.
  induction 1 as [|item rest Hitem _ IH]; intros m v0 l' Hrun;
    [discriminate|].
  cbn [search_entries] in Hrun.
  destruct (decide (item_id item = Some k)) as [Hid|Hid].
  - destruct (item_id_matches _ _ Hid) as (c0 & -> & Hc0).
    exists [], [], c0, (descendants_entries rest).
    split; [reflexivity|]. split; [|auto].
    destruct op eqn:Hop; [discriminate Hrep| |].
    + destruct m; [|discriminate]. injection Hrun as _ <-.
      apply descendants_entries_placed. exact Hrep.
    + destruct m; [|discriminate]. injection Hrun as _ <-.
      cbn in Hrep. injection Hrep as <-. reflexivity.
  - assert (Hskip : forall x,
               (forall r, descendants_entries (x :: r)
                          = descendants_entries r) ->
               (let (r', rest') := search_entries m k op new_item rest in
                (r', x :: rest')) = (inl v0, l') ->
               replaced_first k ins (descendants_entries (x :: rest))
                 (descendants_entries l')).
    { intros x Hx Hr.
      destruct (search_entries m k op new_item rest) as [r rest'] eqn:Hrest.
      injection Hr as -> <-. rewrite !Hx. exact (IH m v0 rest' Hrest). }
    destruct item as [| | | |ci| |];
      try (apply Hskip; [reflexivity|exact Hrun]).
    simpl in Hid.
    destruct (_get_set_or_delete ci k op new_item) as [r ci'] eqn:Hci.
    destruct r as [v|[a| |]]; [| |discriminate|discriminate].
    + injection Hrun as -> <-.
      destruct (Hitem v0 ci' eq_refl) as (pre & pre' & n & post & Hb & Ha
                                          & Hs & Hn & Hpre).
      exists (ci :: pre), (ci' :: pre'), n,
        (post ++ descendants_entries rest).
      cbn [descendants_entries]. rewrite Hb, Ha.
      split; [|split; [|split; [|split]]].
      * reassoc.
      * reassoc.
      * cbn. rewrite Hs, (_get_set_or_delete_strip _ _ _ _ _ _ Hci).
        reflexivity.
      * exact Hn.
      * constructor; assumption.
    + pose proof (_get_set_or_delete_key_error_absent _ _ _ _ _ _ Hci) as Hno.
      rewrite (_get_set_or_delete_fails_clean _ _ _ _ _ _ Hci) in *.
      destruct (search_entries m k op new_item rest) as [r rest'] eqn:Hrest.
      injection Hrun as -> <-.
      destruct (IH m v0 rest' Hrest) as (pre & pre' & n & post & Hb & Ha
                                         & Hs & Hn & Hpre).
      exists (ci :: descendants ci ++ pre), (ci :: descendants ci ++ pre'),
        n, post.
      cbn [descendants_entries]. rewrite Hb, Ha.
      split; [|split; [|split; [|split]]].
      * reassoc.
      * reassoc.
      * cbn. rewrite !fmap_app, Hs. reflexivity.
      * exact Hn.
      * constructor; [exact Hid|]. apply Forall_app. split; [|exact Hpre].
        apply occurrences_nil_Forall. exact Hno.
Qed.

Lemma _get_set_or_delete_replaces (c : Component) :
  forall v0 c',
    _get_set_or_delete c k op new_item = (inl v0, c') ->
    replaced_first k ins (descendants c) (descendants c').
Proof.
  induction c using Component_tree_ind with
    (Q := fun v =>
            match v with
            | VComp c =>
                forall v0 c',
                  _get_set_or_delete c k op new_item = (inl v0, c') ->
                  replaced_first k ins (descendants c) (descendants c')
            | VList l | VTuple l =>
                forall m v0 l',
                  search_entries m k op new_item l = (inl v0, l') ->
                  replaced_first k ins (descendants_entries l)
                    (descendants_entries l')
            | _ => True
            end);
    try exact I; try assumption;
    try (apply search_entries_replaces;
         eapply Forall_impl; [eassumption|];
         intros [] ?; eauto; fail).
  - intros v0 c' Hrun. discriminate.
  - intros v0 c' Hrun. rewrite _get_set_or_delete_unfold in Hrun.
    cbn [children] in Hrun.
    destruct v as [| | | |ch|l|l]; try discriminate.
    + destruct (decide (get_id ch = Some k)) as [Hid|Hid].
      * exists [], [], ch, []. cbn [app].
        split; [cbn; rewrite app_nil_r; reflexivity|].
        split; [|auto]. rewrite app_nil_r.
        destruct op; [discriminate Hrep| |].
        -- injection Hrun as _ <-. cbn in Hrep.
           destruct new_item; try discriminate; injection Hrep as <-;
             reflexivity.
        -- injection Hrun as _ <-. cbn in Hrep. injection Hrep as <-.
           reflexivity.
      * destruct (_get_set_or_delete ch k op new_item) as [r ch'] eqn:Hch.
        destruct r as [v|[a| |]]; try discriminate.
        injection Hrun as -> <-.
        destruct (IHc v0 ch' eq_refl) as (pre & pre' & hit & post & Hb & Ha
                                          & Hs & Hn & Hpre).
        exists (ch :: pre), (ch' :: pre'), hit, post.
        cbn [descendants children set_children]. fold descendants.
        rewrite Hb, Ha.
        split; [reflexivity|]. split; [reflexivity|].
        split; [|split; [exact Hn|constructor; assumption]].
        cbn. rewrite Hs, (_get_set_or_delete_strip _ _ _ _ _ _ Hch).
        reflexivity.
    + destruct (search_entries true k op new_item l) as [r l'] eqn:Hr.
      injection Hrun as -> <-.
      rewrite (descendants_seq _ l), (descendants_seq _ l') by reflexivity.
      exact (IHc true v0 l' Hr).
    + destruct (search_entries false k op new_item l) as [r l'] eqn:Hr.
      injection Hrun as -> <-.
      rewrite (descendants_seq _ l), (descendants_seq _ l') by reflexivity.
      exact (IHc false v0 l' Hr).
Qed.
End replace.

(** *** What a successful [set] or [delete] changes *)

Lemma entries_descendants (c ci : Component) :
  VComp ci ∈ entries c ->
  ci ∈ descendants c /\ descendants ci ⊆ descendants c.
Proof.
  assert (Hseq : forall l, VComp ci ∈ l ->
                           ci ∈ descendants_entries l
                           /\ descendants ci ⊆ descendants_entries l).
  { induction l as [|x l IH]; intros Hin; [inversion Hin|].
    apply elem_of_cons in Hin as [<-|Hin].
    - cbn [descendants_entries]. split; [set_solver|].
      intros d Hd. set_solver.
    - destruct (IH Hin) as [Hci Hsub].
      destruct x; cbn [descendants_entries]; try (split; assumption).
      split; [set_solver|]. intros d Hd. specialize (Hsub d Hd).
      set_solver. }
  unfold entries.
  destruct c as [t n p w i [[| | | |ch|l|l]|] ps d]; cbn [children];
    try (intros Hin; inversion Hin; fail).
  - intros Hin. apply list_elem_of_singleton in Hin as [= ->].
    cbn. split; [set_solver|]. intros d' Hd'. set_solver.
  - rewrite (descendants_seq _ l) by reflexivity. apply Hseq.
  - rewrite (descendants_seq _ l) by reflexivity. apply Hseq.
Qed.

Lemma node_at_descendants (q : list nat) (c n : Component) :
  q <> [] -> node_at q c = Some n -> n ∈ descendants c.
Proof.
  revert c. induction q as [|i q IH]; intros c Hq Hn; [contradiction|].
  cbn [node_at] in Hn. unfold node_in in Hn.
  destruct (entries c !! i) as [[| | | |ci| |]|] eqn:Hi; try discriminate.
  apply list_elem_of_lookup_2 in Hi.
  destruct (entries_descendants c ci Hi) as [Hci Hsub].
  destruct q as [|j q]; [injection Hn as <-; exact Hci|].
  apply Hsub. apply IH; [discriminate|exact Hn].
Qed.

Section edit.
Variables (k : string) (op : operation) (new_item : pyval).
Hypothesis Hop : op <> Get.

Lemma search_entries_edits (l : list pyval) :
  Forall (fun v =>
            match v with
            | VComp c => edits k op new_item c
            | _ => True
            end) l ->
  forall m v l',
    search_entries m k op new_item l = (inl v, l') ->
    exists i p n,
      first_in k l i p n
      /\ l' = edit_entry (edit_at p (put op new_item))
                (bool_decide (p = [])) i (put op new_item) l.
Proof.
  induction 1 as [|item rest Hitem _ IH]; intros m v l' Hrun;
    [discriminate|].
  cbn [search_entries] in Hrun.
  destruct (decide (item_id item = Some k)) as [Hid|Hid].
  - destruct (item_id_matches _ _ Hid) as (c0 & -> & Hc0).
    exists 0, [], c0. split.
    + split; [reflexivity|]. split; [exact Hc0|].
      intros j q n' Hbefore. cbn in Hbefore.
      destruct q; rewrite ?andb_false_r in Hbefore; discriminate.
    + destruct op; [contradiction| |];
        (destruct m; [|discriminate]); injection Hrun as _ <-;
        reflexivity.
  - assert (Hskip :
             forall item',
               (forall q n', node_in (node_at q) 0 (item :: rest) = Some n'
                             -> get_id n' <> Some k) ->
               (let (r', rest') := search_entries m k op new_item rest in
                (r', item' :: rest')) = (inl v, l') ->
               item' = item ->
               exists i p n,
                 first_in k (item :: rest) i p n
                 /\ l' = edit_entry (edit_at p (put op new_item))
                           (bool_decide (p = [])) i (put op new_item)
                           (item :: rest)).
    { intros item' Hclean Hr ->.
      destruct (search_entries m k op new_item rest) as [r rest'] eqn:Hrest.
      injection Hr as -> <-.
      destruct (IH m v rest' Hrest) as (i & p & n & (Hn & Hk & Hfirst) & ->).
      exists (S i), p, n. split.
      - split; [exact Hn|]. split; [exact Hk|].
        intros [|j] q n' Hbefore Hn'.
        + exact (Hclean q n' Hn').
        + apply (Hfirst j q n'); [exact Hbefore|exact Hn'].
      - unfold edit_entry. destruct (bool_decide (p = []));
          [destruct (put op new_item); reflexivity|].
        cbn [lookup list_lookup].
        change ((item :: rest) !! S i) with (rest !! i).
        destruct (rest !! i) as [[]|]; reflexivity. }
    destruct item as [| | | |ci| |];
      try (eapply Hskip;
           [intros q n' Hn'; cbn in Hn'; discriminate Hn'
           |exact Hrun|reflexivity]).
    simpl in Hid.
    destruct (_get_set_or_delete ci k op new_item) as [r ci'] eqn:Hci.
    destruct r as [v0|[a| |]]; [| |discriminate|discriminate].
    + injection Hrun as -> <-.
      destruct (Hitem v ci' Hci) as (i & p & n & (Hn & Hk & Hfirst) & ->).
      exists 0, (i :: p), n. split.
      * split; [exact Hn|]. split; [exact Hk|].
        intros j q n' Hbefore Hn'. cbn in Hbefore.
        destruct j as [|j]; [|discriminate]. cbn in Hbefore.
        cbn in Hn'.
        destruct q as [|j q]; [injection Hn' as <-; exact Hid|].
        apply (Hfirst j q n'); [exact Hbefore|exact Hn'].
      * reflexivity.
    + pose proof (_get_set_or_delete_key_error_absent _ _ _ _ _ _ Hci) as Hno.
      rewrite (_get_set_or_delete_fails_clean _ _ _ _ _ _ Hci) in *.
      apply (Hskip (VComp ci)); [|exact Hrun|reflexivity].
      intros q n' Hn'. cbn in Hn'.
      destruct q as [|j q]; [injection Hn' as <-; exact Hid|].
      apply occurrences_nil_Forall in Hno.
      rewrite Forall_forall in Hno. apply Hno.
      apply (node_at_descendants (j :: q)); [discriminate|exact Hn'].
Qed.

Lemma _get_set_or_delete_edits (c : Component) : edits k op new_item c.
Proof.
  induction c using Component_tree_ind with
    (Q := fun v =>
            match v with
            | VComp c => edits k op new_item c
            | VList l | VTuple l =>
                forall m v l',
                  search_entries m k op new_item l = (inl v, l') ->
                  exists i p n,
                    first_in k l i p n
                    /\ l' = edit_entry (edit_at p (put op new_item))
                              (bool_decide (p = [])) i (put op new_item) l
            | _ => True
            end);
    try exact I; try assumption;
    try (apply search_entries_edits;
         eapply Forall_impl; [eassumption|];
         intros [] ?; eauto; fail).
  - intros v0 c' Hrun. discriminate.
  - intros v0 c' Hrun. rewrite _get_set_or_delete_unfold in Hrun.
    cbn [children] in Hrun.
    destruct v as [| | | |ch|l|l]; try discriminate.
    + destruct (decide (get_id ch = Some k)) as [Hid|Hid].
      * exists 0, [], ch. split.
        -- split; [reflexivity|]. split; [exact Hid|].
           intros j q n' Hbefore. cbn in Hbefore.
           destruct q; rewrite ?andb_false_r in Hbefore; discriminate.
        -- destruct op; [contradiction| |]; injection Hrun as _ <-;
             reflexivity.
      * destruct (_get_set_or_delete ch k op new_item) as [r ch'] eqn:Hch.
        destruct r as [v|[a| |]]; try discriminate.
        injection Hrun as -> <-.
        destruct (IHc v0 ch' Hch)
          as (i0 & p0 & hit & (Hn & Hk & Hfirst) & ->).
        exists 0, (i0 :: p0), hit. split.
        -- split; [exact Hn|]. split; [exact Hk|].
           intros j q n' Hbefore Hn'. cbn in Hbefore.
           destruct j as [|j]; [|discriminate]. cbn in Hbefore.
           cbn in Hn'.
           destruct q as [|j q]; [injection Hn' as <-; exact Hid|].
           apply (Hfirst j q n'); [exact Hbefore|exact Hn'].
        -- reflexivity.
    + destruct (search_entries true k op new_item l) as [r l'] eqn:Hr.
      injection Hrun as -> <-.
      destruct (IHc true v0 l' Hr) as (i0 & p0 & hit & Hfirst & ->).
      exists i0, p0, hit. split; [exact Hfirst|reflexivity].
    + destruct (search_entries false k op new_item l) as [r l'] eqn:Hr.
      injection Hrun as -> <-.
      destruct (IHc false v0 l' Hr) as (i0 & p0 & hit & Hfirst & ->).
      exists i0, p0, hit. split; [exact Hfirst|reflexivity].
Qed.
End edit.

Lemma strip_eq_Forall (k : string) (a b : list Component) :
  strip <$> a = strip <$> b ->
  Forall (fun d => get_id d <> Some k) b ->
  Forall (fun d => get_id d <> Some k) a.
Proof.
  revert b. induction a as [|x a IH]; intros [|y b] Heq Hb; try discriminate;
    [constructor|].
  cbn in Heq. injection Heq as Hxy Hab. inversion Hb; subst.
  constructor; [|eauto].
  rewrite <- (get_id_strip x), Hxy, get_id_strip. assumption.
Qed.

(** ** The claim about [delete] followed by [get] *)

(** C5 (as stated, refuted): with the id on two Nodes, [delete] removes the
    first and a following [get] returns the second. *)
Lemma C5_duplicate_id_survives_delete :
  (__delitem__ twins_root "k").1 = inl VNone
  /\ (__getitem__ (__delitem__ twins_root "k").2 "k").1
     = inl (VComp (twin "B")).
Proof. split; reflexivity. Qed.

(** C5 (amended): a successful [delete(k)] removes the first Node carrying
    [k], with its descendants; a following [get(k)] returns the first Node
    carrying [k] among those that came after them, and fails with a
    [KeyError] when there is none: [KeyError(k)], or the bare one of the
    structure check when the deletion left [T] without indexable children.
    So it fails when exactly one descendant Node of [T] carried [k]. *)
Theorem C5_delete_then_get (T T' : Component) (k : string) (v : pyval) :
  __delitem__ T k = (inl v, T') ->
  let not_found :=
    KeyError (if is_indexable (children T') then Some k else None) in
  (exists pre n post,
      descendants T = pre ++ n :: descendants n ++ post
      /\ get_id n = Some k
      /\ Forall (fun d => get_id d <> Some k) pre
      /\ __getitem__ T' k
         = (match filter (fun d => get_id d = Some k) post with
            | next :: _ => inl (VComp next)
            | [] => inr not_found
            end, T'))
  /\ (forall n,
        filter (fun d => get_id d = Some k) (descendants T) = [n] ->
        __getitem__ T' k = (inr not_found, T')).
Proof.
  intros Hdel not_found.
  destruct (_get_set_or_delete_replaces k Delete VNone [] eq_refl T v T' Hdel)
    as (pre & pre' & n & post & Hb & Ha & Hs & Hn & Hpre).
  cbn [app] in Ha.
  assert (Hget : __getitem__ T' k
                 = (match filter (fun d => get_id d = Some k) post with
                    | next :: _ => inl (VComp next)
                    | [] => inr not_found
                    end, T')).
  { unfold __getitem__.
    rewrite (_get_set_or_delete_get k VNone T'), check_indexable.
    unfold occurrences. rewrite Ha, filter_app.
    rewrite (Forall_occurrences_nil k pre')
      by (eapply strip_eq_Forall; eauto).
    cbn [app]. subst not_found.
    destruct (filter _ post); [|reflexivity].
    destruct (is_indexable (children T')); reflexivity. }
  split.
  - exists pre, n, post. repeat (split; [assumption|]). exact Hget.
  - intros n0 Honce. rewrite Hget.
    rewrite Hb, filter_app in Honce.
    rewrite (Forall_occurrences_nil k pre Hpre) in Honce.
    cbn [app] in Honce.
    rewrite filter_cons, decide_True in Honce by exact Hn.
    rewrite filter_app in Honce.
    injection Honce as _ Hrest. apply app_eq_nil in Hrest as [_ ->].
    reflexivity.
Qed.

Lemma C5_delete_then_get_witness :
  let T := scenario_root false false in
  let T' := (__delitem__ T "b").2 in
  filter (fun d => get_id d = Some "b") (descendants T) = [scenario_B false]
  /\ __delitem__ T "b" = (inl VNone, T')
  /\ __getitem__ T' "b" = (inr (KeyError (Some "b")), T').
Proof.
  intros T T'. split; [reflexivity|]. split; [reflexivity|].
  exact (proj2 (C5_delete_then_get T T' "b" VNone eq_refl)
           (scenario_B false) eq_refl).
Defined.

(** * Part IV: further properties of the code *)

(** ** The navigator *)


(** X1: [get] is a pure read: whether it returns or raises, the tree it
    leaves is the tree it was given. *)
Theorem X1_get_leaves_tree (T : Component) (k : string) :
  (__getitem__ T k).2 = T.
Proof.
  unfold __getitem__. rewrite (_get_set_or_delete_get k VNone T). reflexivity.
Qed.

(** X2: first found wins: when several descendant Nodes carry [k], [get]
    returns the first of them in depth-first pre-order. *)
Theorem X2_get_first_occurrence (T n : Component) (k : string)
    (others : list Component) :
  filter (fun d => get_id d = Some k) (descendants T) = n :: others ->
  __getitem__ T k = (inl (VComp n), T).
Proof.
  intros Hocc. unfold __getitem__.
  rewrite (_get_set_or_delete_get k VNone T).
  fold (occurrences k T). unfold occurrences. rewrite Hocc. reflexivity.
Qed.

Lemma X2_get_first_occurrence_witness :
  filter (fun d => get_id d = Some "k") (descendants twins_root)
  = [twin "A"; twin "B"]
  /\ __getitem__ twins_root "k" = (inl (VComp (twin "A")), twins_root).
Proof.
  split; [reflexivity|].
  apply (X2_get_first_occurrence twins_root (twin "A") "k" [twin "B"]).
  reflexivity.
Defined.

(** X3: when no descendant Node carries [k], [get], [set] and [delete] all
    raise a [KeyError] and leave the tree as it was: [KeyError(k)] when
    [children] is a Node or a sequence, the bare one otherwise. *)
Theorem X3_absent_id_key_error (T : Component) (k : string) (x : pyval) :
  filter (fun d => get_id d = Some k) (descendants T) = [] ->
  let e := KeyError (if is_indexable (children T) then Some k else None) in
  __getitem__ T k = (inr e, T)
  /\ __setitem__ T k x = (inr e, T)
  /\ __delitem__ T k = (inr e, T).
Proof.
  intros Hnil e. unfold __getitem__, __setitem__, __delitem__.
  repeat split; apply _get_set_or_delete_absent; exact Hnil.
Qed.

Lemma X3_absent_id_key_error_witness :
  let T := scenario_root false false in
  filter (fun d => get_id d = Some "zzz") (descendants T) = []
  /\ __getitem__ T "zzz" = (inr (KeyError (Some "zzz")), T)
  /\ __setitem__ T "zzz" (VStr "new") = (inr (KeyError (Some "zzz")), T)
  /\ __delitem__ T "zzz" = (inr (KeyError (Some "zzz")), T).
Proof.
  intros T. split; [reflexivity|].
  apply (X3_absent_id_key_error T "zzz" (VStr "new")). reflexivity.
Defined.

(** X4: when some descendant Node carries [k], [set] and [delete] never
    raise a [KeyError]: they return, or raise the [TypeError] of a tuple
    that cannot be assigned to. *)
Theorem X4_present_id_no_key_error (T : Component) (k : string) (x : pyval) :
  filter (fun d => get_id d = Some k) (descendants T) <> [] ->
  ((exists v, (__setitem__ T k x).1 = inl v)
   \/ (__setitem__ T k x).1 = inr TypeError)
  /\ ((exists v, (__delitem__ T k).1 = inl v)
      \/ (__delitem__ T k).1 = inr TypeError).
Proof.
  intros Hocc. unfold __setitem__, __delitem__.
  pose proof (_get_set_or_delete_present k Set_item x T Hocc) as Hset.
  pose proof (_get_set_or_delete_present k Delete VNone T Hocc) as Hdel.
  pose proof (_get_set_or_delete_no_value_error T k Set_item x) as Hset'.
  pose proof (_get_set_or_delete_no_value_error T k Delete VNone) as Hdel'.
  split.
  - destruct (_get_set_or_delete T k Set_item x).1 as [v|[a| |]]; eauto.
    + exfalso. exact (Hset a eq_refl).
    + exfalso. exact (Hset' eq_refl).
  - destruct (_get_set_or_delete T k Delete VNone).1 as [v|[a| |]]; eauto.
    + exfalso. exact (Hdel a eq_refl).
    + exfalso. exact (Hdel' eq_refl).
Qed.

Lemma X4_present_id_no_key_error_witness :
  filter (fun d => get_id d = Some "k") (descendants tuple_root) <> []
  /\ ((exists v, (__setitem__ tuple_root "k" (VStr "new")).1 = inl v)
      \/ (__setitem__ tuple_root "k" (VStr "new")).1 = inr TypeError)
  /\ ((exists v, (__delitem__ tuple_root "k").1 = inl v)
      \/ (__delitem__ tuple_root "k").1 = inr TypeError).
Proof.
  split; [discriminate|].
  apply (X4_present_id_no_key_error tuple_root "k" (VStr "new")).
  discriminate.
Defined.

(** X5: a successful [delete(k)] changes the tree at one place, the first
    position, in depth-first pre-order, of a Node carrying [k]: the tree
    it leaves is the tree it was given with the entry at that position
    removed from its sequence ([children] set to [None] when the entry was
    all of [children]), and is the same everywhere else. *)
Theorem X5_delete_removes_first_subtree (T T' : Component) (k : string)
    (v : pyval) :
  __delitem__ T k = (inl v, T') ->
  exists p n,
    p <> []
    /\ node_at p T = Some n
    /\ get_id n = Some k
    /\ (forall q n',
          q <> [] -> precedes q p = true -> node_at q T = Some n' ->
          get_id n' <> Some k)
    /\ T' = edit_at p None T.
Proof.
  intros Hdel.
  destruct (_get_set_or_delete_edits k Delete VNone ltac:(discriminate)
              T v T' Hdel)
    as (i & p & n & (Hn & Hk & Hfirst) & ->).
  exists (i :: p), n.
  split; [discriminate|]. split; [exact Hn|]. split; [exact Hk|].
  split; [|reflexivity].
  intros [|j q] n' Hq; [contradiction|]. apply Hfirst.
Qed.

Lemma X5_delete_removes_first_subtree_witness :
  let T := scenario_root false false in
  let T' := (__delitem__ T "c").2 in
  __delitem__ T "c" = (inl VNone, T')
  /\ node_at [2; 0] T = Some (scenario_C false)
  /\ T' = edit_at [2; 0] None T
  /\ exists p n,
      p <> []
      /\ node_at p T = Some n
      /\ get_id n = Some "c"
      /\ (forall q n',
            q <> [] -> precedes q p = true -> node_at q T = Some n' ->
            get_id n' <> Some "c")
      /\ T' = edit_at p None T.
Proof.
  intros T T'. split; [reflexivity|]. split; [reflexivity|].
  split; [reflexivity|].
  apply (X5_delete_removes_first_subtree T T' "c" VNone). reflexivity.
Defined.

(** X6: a successful [set(k, x)] changes the tree at one place, the first
    position, in depth-first pre-order, of a Node carrying [k]: the tree
    it leaves is the tree it was given with [x] as the entry at that
    position, and is the same everywhere else. *)
Theorem X6_set_replaces_first_subtree (T T' : Component) (k : string)
    (x v : pyval) :
  __setitem__ T k x = (inl v, T') ->
  exists p n,
    p <> []
    /\ node_at p T = Some n
    /\ get_id n = Some k
    /\ (forall q n',
          q <> [] -> precedes q p = true -> node_at q T = Some n' ->
          get_id n' <> Some k)
    /\ T' = edit_at p (Some x) T.
Proof.
  intros Hset.
  destruct (_get_set_or_delete_edits k Set_item x ltac:(discriminate)
              T v T' Hset)
    as (i & p & n & (Hn & Hk & Hfirst) & ->).
  exists (i :: p), n.
  split; [discriminate|]. split; [exact Hn|]. split; [exact Hk|].
  split; [|reflexivity].
  intros [|j q] n' Hq; [contradiction|]. apply Hfirst.
Qed.

Lemma X6_set_replaces_first_subtree_witness :
  let T := scenario_root false false in
  let x := VComp (twin "N") in
  let T' := (__setitem__ T "c" x).2 in
  __setitem__ T "c" x = (inl VNone, T')
  /\ node_at [2; 0] T = Some (scenario_C false)
  /\ T' = edit_at [2; 0] (Some x) T
  /\ exists p n,
      p <> []
      /\ node_at p T = Some n
      /\ get_id n = Some "c"
      /\ (forall q n',
            q <> [] -> precedes q p = true -> node_at q T = Some n' ->
            get_id n' <> Some "c")
      /\ T' = edit_at p (Some x) T.
Proof.
  intros T x T'. split; [reflexivity|]. split; [reflexivity|].
  split; [reflexivity|].
  apply (X6_set_replaces_first_subtree T T' "c" x VNone). reflexivity.
Defined.

(** X7: a successful [set(k, x)] followed by [get(k)] returns [x] when the
    component [x] carries the id [k] itself. *)
Theorem X7_set_then_get (T T' x : Component) (k : string) (v : pyval) :
  get_id x = Some k ->
  __setitem__ T k (VComp x) = (inl v, T') ->
  __getitem__ T' k = (inl (VComp x), T').
Proof.
  intros Hx Hset.
  destruct (_get_set_or_delete_replaces k Set_item (VComp x)
              (x :: descendants x) eq_refl T v T' Hset)
    as (pre & pre' & n & post & Hb & Ha & Hs & Hn & Hpre).
  unfold __getitem__. rewrite (_get_set_or_delete_get k VNone T').
  unfold occurrences. rewrite Ha, filter_app.
  rewrite (Forall_occurrences_nil k pre') by (eapply strip_eq_Forall; eauto).
  cbn [app]. rewrite filter_cons, decide_True by exact Hx. reflexivity.
Qed.

Lemma X7_set_then_get_witness :
  let T := chain_root in
  let T' := (__setitem__ T "k" (VComp (twin "New"))).2 in
  get_id (twin "New") = Some "k"
  /\ __setitem__ T "k" (VComp (twin "New")) = (inl VNone, T')
  /\ __getitem__ T' "k" = (inl (VComp (twin "New")), T').
Proof.
  intros T T'. split; [reflexivity|]. split; [reflexivity|].
  apply (X7_set_then_get T T' (twin "New") "k" VNone); reflexivity.
Defined.

(** ** [__len__] against the traversal *)







(** ** The serialiser *)

Lemma fold_insert_lookup {X V : Type} (get : string -> option V)
    (key : X -> string) (c : X -> bool) (xs : list X)
    (d : gmap string V) (k : string) :
  foldl (fun d x =>
           if c x then
             match get (key x) with
             | Some v => <[key x := v]> d
             | None => d
             end
           else d) d xs !! k
  = if bool_decide (Exists (fun x => key x = k /\ c x = true) xs)
    then from_option Some (d !! k) (get k)
    else d !! k.
Proof.
  revert d. induction xs as [|x xs IH]; intros d.
  - reflexivity.
  - cbn [foldl]. rewrite IH. clear IH.
    assert (Hstep :
             (if c x then
                match get (key x) with
                | Some v => <[key x := v]> d
                | None => d
                end
              else d) !! k
             = if bool_decide (key x = k /\ c x = true)
               then from_option Some (d !! k) (get k) else d !! k).
    { case_bool_decide as Hx.
      - destruct Hx as [<- ->]. destruct (get (key x)); cbn.
        + apply lookup_insert_eq.
        + reflexivity.
      - destruct (c x) eqn:Hc; [|reflexivity].
        destruct (get (key x)); [|reflexivity].
        apply lookup_insert_ne. intros Heq. apply Hx. auto. }
    rewrite Hstep. clear Hstep.
    repeat case_bool_decide;
      try (destruct (get k); reflexivity);
      exfalso; rewrite Exists_cons in *; tauto.
Qed.

(** X9: [to_plotly_json] puts under [props] exactly the names declared in
    [_prop_names] that [getattr] finds, on the instance or on its class,
    and the attributes of the instance whose name starts with a wildcard
    prefix, each with what [getattr] returns; nothing else appears.  So a
    declared property that is not set on the instance, but whose name the
    class defines or inherits (such as [values]), is serialised with the
    object of the class.  The type and the namespace are passed on. *)
Theorem X9_serialised_properties (self : Component) (k : string) :
  props (to_plotly_json self) !! k
  = (if bool_decide (k ∈ _prop_names self)
        || (is_wildcard self k && bool_decide (k ∈ (__dict__ self).*1))
     then getattr self k else None)
  /\ (k ∈ _prop_names self -> k ∉ (__dict__ self).*1 ->
      k ∈ class_attributes -> k <> "UNDEFINED" ->
      props (to_plotly_json self) !! k = Some (ClassObject k))
  /\ type (to_plotly_json self) = _type self
  /\ namespace (to_plotly_json self) = _namespace self.
Proof.
  assert (Hall :
           props (to_plotly_json self) !! k
           = (if bool_decide (k ∈ _prop_names self)
                 || (is_wildcard self k
                     && bool_decide (k ∈ (__dict__ self).*1))
              then getattr self k else None)).
  { unfold to_plotly_json. cbn [props].
    rewrite lookup_union.
    assert (Hwild :
             foldl (fun d kv =>
                      if is_wildcard self kv.1 then
                        match getattr self kv.1 with
                        | Some v => <[kv.1 := v]> d
                        | None => d
                        end
                      else d) (∅ : gmap string attribute) (__dict__ self)
               !! k
             = if is_wildcard self k && bool_decide (k ∈ (__dict__ self).*1)
               then getattr self k else None).
    { rewrite (fold_insert_lookup (getattr self) fst
                 (fun kv : string * pyval => is_wildcard self kv.1)).
      rewrite lookup_empty. case_bool_decide as Hex.
      - apply Exists_exists in Hex as (kv & Hkv & <- & ->).
        rewrite bool_decide_true by (apply list_elem_of_fmap; eauto).
        destruct (getattr self kv.1); reflexivity.
      - destruct (is_wildcard self k) eqn:Hw; [|reflexivity].
        case_bool_decide as Hk; [|reflexivity].
        exfalso. apply Hex. apply Exists_exists.
        apply list_elem_of_fmap in Hk as (kv & -> & Hkv).
        exists kv. auto. }
    assert (Hprops :
             foldl (fun d p =>
                      if hasattr self p then
                        match getattr self p with
                        | Some v => <[p := v]> d
                        | None => d
                        end
                      else d) (∅ : gmap string attribute) (_prop_names self)
               !! k
             = if bool_decide (k ∈ _prop_names self)
               then getattr self k else None).
    { rewrite (fold_insert_lookup (getattr self) (fun p => p)
                 (hasattr self)).
      rewrite lookup_empty.
      destruct (decide (k ∈ _prop_names self)) as [Hk|Hk].
      - rewrite (bool_decide_true (k ∈ _prop_names self)) by exact Hk.
        destruct (getattr self k) as [v|] eqn:Hget.
        + rewrite bool_decide_true; [reflexivity|].
          apply Exists_exists. exists k.
          split; [exact Hk|]. split; [reflexivity|].
          unfold hasattr. rewrite Hget. apply bool_decide_true. eauto.
        + cbn. destruct (bool_decide (Exists _ _)); reflexivity.
      - rewrite (bool_decide_false (k ∈ _prop_names self)) by exact Hk.
        rewrite bool_decide_false; [reflexivity|].
        intros Hex. apply Exists_exists in Hex as (p & Hp & Hpk & _).
        cbn in Hpk. subst p. contradiction. }
    rewrite Hwild, Hprops.
    destruct (is_wildcard self k && bool_decide (k ∈ (__dict__ self).*1)),
      (bool_decide (k ∈ _prop_names self));
      cbn; destruct (getattr self k); reflexivity. }
  split; [exact Hall|]. split; [|split; reflexivity].
  intros Hdeclared Hunset Hclass Hname. rewrite Hall.
  rewrite (bool_decide_true _ Hdeclared). cbn [orb].
  unfold getattr.
  assert (Hnone : (list_to_map (__dict__ self) : gmap string pyval) !! k
                  = None)
    by (apply not_elem_of_list_to_map; exact Hunset).
  rewrite Hnone.
  destruct (decide (k ∈ data_descriptors)); [reflexivity|].
  rewrite decide_False by exact Hname.
  rewrite decide_True by (apply elem_of_app; left; exact Hclass).
  reflexivity.
Qed.

Lemma X9_serialised_properties_witness :
  "values" ∈ _prop_names checklist
  /\ ("values" ∉ (__dict__ checklist).*1)
  /\ props (to_plotly_json checklist) !! "values"
     = Some (ClassObject "values").
Proof.
  assert (Hdeclared : "values" ∈ _prop_names checklist)
    by (cbn; set_solver).
  assert (Hunset : "values" ∉ (__dict__ checklist).*1)
    by (cbn; set_solver).
  split; [exact Hdeclared|]. split; [exact Hunset|].
  apply (X9_serialised_properties checklist "values");
    [exact Hdeclared|exact Hunset|cbn; set_solver|discriminate].
Defined.

(** ** The registry *)

Section registry.
Import ComponentRegistry.

Lemma before_dot_cons (c : ascii) (s : string) :
  ComponentMeta.before_dot (String c s)
  = if decide (c = "."%char) then EmptyString
    else String c (ComponentMeta.before_dot s).
Proof. reflexivity. Qed.

Lemma before_dot_prefix (pkg rest : string) :
  Forall (fun c => c <> "."%char) (String.list_ascii_of_string pkg) ->
  ComponentMeta.before_dot (pkg +:+ "." +:+ rest) = pkg.
Proof.
  induction pkg as [|c pkg IH]; intros Hdot; [reflexivity|].
  cbn [String.list_ascii_of_string] in Hdot. inversion Hdot; subst.
  change (String c pkg +:+ "." +:+ rest)
    with (String c (pkg +:+ "." +:+ rest)).
  rewrite before_dot_cons, decide_False by assumption.
  f_equal. apply IH. assumption.
Qed.

(** X10: a class defined in a module of the package [pkg] registers the
    name [pkg], whatever the path of the module below it, and a second
    class of the same package changes nothing; neither touches the cache
    or the modules.  (The classes are not named [Component] and the
    package is not [builtins].) *)
Theorem X10_one_name_per_package (pkg rest rest' name name' : string)
    (s : state) :
  Forall (fun c => c <> "."%char) (String.list_ascii_of_string pkg) ->
  pkg <> "builtins" -> name <> "Component" -> name' <> "Component" ->
  let s1 := ComponentMeta.__new__ name (pkg +:+ "." +:+ rest) s in
  registry s1 = {[pkg]} ∪ registry s
  /\ __dist_cache s1 = __dist_cache s
  /\ sys_modules s1 = sys_modules s
  /\ ComponentMeta.__new__ name' (pkg +:+ "." +:+ rest') s1 = s1.
Proof.
  intros Hdot Hpkg Hname Hname' s1. subst s1.
  unfold ComponentMeta.__new__. rewrite !before_dot_prefix by exact Hdot.
  rewrite !decide_False by tauto. cbn.
  repeat split. f_equal. set_solver.
Qed.

Lemma X10_one_name_per_package_witness :
  let s1 := ComponentMeta.__new__ "Graph" "dash_core.Graph.impl" one_library in
  registry s1 = {["dash_core"]} ∪ registry one_library
  /\ __dist_cache s1 = __dist_cache one_library
  /\ sys_modules s1 = sys_modules one_library
  /\ ComponentMeta.__new__ "Input" "dash_core.Input" s1 = s1.
Proof.
  apply (X10_one_name_per_package "dash_core" "Graph.impl" "Input" "Graph"
           "Input" one_library).
  - repeat constructor; discriminate.
  - discriminate.
  - discriminate.
  - discriminate.
Defined.

Lemma set_cache_same (s : state) (name : string) (l : list nat) :
  __dist_cache s !! name = Some l ->
  set_cache s (<[name := l]> (__dist_cache s)) = s.
Proof.
  intros Hc. destruct s as [reg cache mods]. unfold set_cache. cbn in *.
  rewrite insert_id by exact Hc. reflexivity.
Qed.

Lemma set_cache_twice (s : state) (c1 c2 : gmap string (list nat)) :
  set_cache (set_cache s c1) c2 = set_cache s c2.
Proof. reflexivity. Qed.

Lemma extend_from_all_loaded (name : string) (todo : list string) (s : state)
    (l0 : list nat) :
  __dist_cache s !! name = Some l0 ->
  (forall m, m ∈ todo -> is_Some (sys_modules s !! m)) ->
  extend_from name todo s
  = (inl (l0 ++ module_lists s name todo),
     set_cache s (<[name := l0 ++ module_lists s name todo]>
                    (__dist_cache s))).
Proof.
  revert s l0. induction todo as [|m rest IH]; intros s l0 Hc Hloaded.
  - cbn. rewrite Hc, app_nil_r, set_cache_same by exact Hc. reflexivity.
  - cbn [extend_from].
    destruct (Hloaded m (list_elem_of_here _ _)) as [module Hm].
    rewrite Hm, Hc. cbn [default].
    rewrite (IH _ (l0 ++ default [] (module !! name))).
    + unfold module_lists. cbn. rewrite Hm. cbn.
      rewrite insert_insert_eq, <- !app_assoc. reflexivity.
    + cbn. apply lookup_insert_eq.
    + intros m' Hm'. cbn. apply Hloaded. apply list_elem_of_further, Hm'.
Qed.

Lemma extend_from_unloaded (name : string) (pre post : list string)
    (m : string) (s : state) (l0 : list nat) :
  __dist_cache s !! name = Some l0 ->
  (forall m', m' ∈ pre -> is_Some (sys_modules s !! m')) ->
  sys_modules s !! m = None ->
  extend_from name (pre ++ m :: post) s
  = (inr (KeyError (Some m)),
     set_cache s (<[name := l0 ++ module_lists s name pre]>
                    (__dist_cache s))).
Proof.
  revert s l0. induction pre as [|m0 pre IH]; intros s l0 Hc Hloaded Hm.
  - cbn. rewrite Hm, app_nil_r, set_cache_same by exact Hc. reflexivity.
  - cbn [extend_from app].
    destruct (Hloaded m0 (list_elem_of_here _ _)) as [module Hm0].
    rewrite Hm0, Hc. cbn [default].
    rewrite (IH _ (l0 ++ default [] (module !! name))).
    + unfold module_lists. cbn. rewrite Hm0. cbn.
      rewrite insert_insert_eq, <- !app_assoc. reflexivity.
    + cbn. apply lookup_insert_eq.
    + intros m' Hm'. cbn. apply Hloaded. apply list_elem_of_further, Hm'.
    + exact Hm.
Qed.

Lemma get_resources_compute (name : string) (order : list string)
    (s : state) :
  __dist_cache s !! name = None \/ __dist_cache s !! name = Some [] ->
  get_resources name order s = compute_resources name order s.
Proof.
  intros [Hc|Hc]; unfold get_resources; rewrite Hc; reflexivity.
Qed.

Lemma module_lists_order (s : state) (name : string)
    (order order' : list string) :
  order ≡ₚ order' ->
  module_lists s name order ≡ₚ module_lists s name order'.
Proof.
  unfold module_lists.
  induction 1 as [|m l l' _ IH|m m' l|l l' l'' _ IH _ IH'].
  - reflexivity.
  - cbn. rewrite IH. reflexivity.
  - cbn. rewrite !app_assoc. apply Permutation_app_tail.
    apply Permutation_app_comm.
  - etransitivity; eassumption.
Qed.

(** X11: on a miss (nothing cached under the name, or the empty list),
    with every registered module loaded, [get_resources] returns the lists
    that the registered modules hold under the name, one after the other
    in the order in which this call iterates the registry, and caches
    exactly that list.  Which resources it returns does not depend on that
    order; in which order it returns them does. *)
Theorem X11_miss_collects_registry (name : string) (order : list string)
    (s : state) :
  __dist_cache s !! name = None \/ __dist_cache s !! name = Some [] ->
  order ≡ₚ elements (registry s) ->
  (forall m, m ∈ registry s -> is_Some (sys_modules s !! m)) ->
  let l := module_lists s name order in
  get_resources name order s
  = (inl l, set_cache s (<[name := l]> (__dist_cache s)))
  /\ l ≡ₚ module_lists s name (elements (registry s)).
Proof.
  intros Hmiss Horder Hloaded l. split.
  - rewrite get_resources_compute by exact Hmiss.
    unfold compute_resources.
    rewrite (extend_from_all_loaded name _ _ []).
    + cbn. rewrite insert_insert_eq. reflexivity.
    + cbn. apply lookup_insert_eq.
    + intros m Hm. cbn. apply Hloaded. apply elem_of_elements.
      rewrite <- Horder. exact Hm.
  - apply module_lists_order. exact Horder.
Qed.

Lemma X11_miss_collects_registry_witness :
  let s := run second_library one_library in
  ["lib_b"; "lib_a"] ≡ₚ elements (registry s)
  /\ get_resources "_js_dist" ["lib_b"; "lib_a"] s
     = (inl [3; 1; 2],
        set_cache s (<["_js_dist" := [3; 1; 2]]> (__dist_cache s))).
Proof.
  intros s.
  assert (Horder : ["lib_b"; "lib_a"] ≡ₚ elements (registry s))
    by (vm_compute; first [reflexivity|apply perm_swap]).
  split; [exact Horder|].
  apply (X11_miss_collects_registry "_js_dist" ["lib_b"; "lib_a"] s).
  - left. reflexivity.
  - exact Horder.
  - intros m Hm.
    assert (Hin : m ∈ ["lib_b"; "lib_a"])
      by (rewrite Horder; apply elem_of_elements; exact Hm).
    apply elem_of_cons in Hin as [->|Hin]; [vm_compute; eauto|].
    apply elem_of_cons in Hin as [->|Hin]; [vm_compute; eauto|].
    inversion Hin.
Defined.

(** X12: when the iteration of the registry reaches a module that is
    missing from [sys.modules], a call that misses the cache raises
    [KeyError] with the name of that module, and leaves under the name the
    lists of the modules iterated before it.  If that partial list is not
    empty, every later call returns it as if nothing had happened; if it
    is empty, the next call computes afresh.  Which of the two happens
    depends on where the iteration meets the missing module. *)
Theorem X12_failed_call_caches_partial_list (name m : string)
    (pre post : list string) (s : state) :
  __dist_cache s !! name = None \/ __dist_cache s !! name = Some [] ->
  (forall m', m' ∈ pre -> is_Some (sys_modules s !! m')) ->
  sys_modules s !! m = None ->
  let l := module_lists s name pre in
  let s1 := set_cache s (<[name := l]> (__dist_cache s)) in
  get_resources name (pre ++ m :: post) s = (inr (KeyError (Some m)), s1)
  /\ (l <> [] ->
      forall order, get_resources name order s1 = (inl l, s1))
  /\ (l = [] ->
      forall order,
        get_resources name order s1 = compute_resources name order s1).
Proof.
  intros Hmiss Hloaded Hm l s1. split; [|split].
  - rewrite get_resources_compute by exact Hmiss.
    unfold compute_resources.
    rewrite (extend_from_unloaded name pre post m _ []).
    + cbn. rewrite insert_insert_eq. reflexivity.
    + cbn. apply lookup_insert_eq.
    + exact Hloaded.
    + exact Hm.
  - intros Hl order. apply get_resources_hit; [|exact Hl].
    subst s1. cbn. apply lookup_insert_eq.
  - intros Hl order. apply get_resources_compute. right.
    subst s1. cbn. rewrite Hl. apply lookup_insert_eq.
Qed.

Lemma X12_failed_call_caches_partial_list_witness :
  let s := unloaded_library in
  let s1 := set_cache s (<["_js_dist" := [1; 2]]> (__dist_cache s)) in
  sys_modules s !! "lib_b" = None
  /\ get_resources "_js_dist" ["lib_a"; "lib_b"] s
     = (inr (KeyError (Some "lib_b")), s1)
  /\ get_resources "_js_dist" ["lib_b"; "lib_a"] s1 = (inl [1; 2], s1).
Proof.
  intros s s1.
  assert (Hloaded : forall m', m' ∈ ["lib_a"] ->
                               is_Some (sys_modules s !! m')).
  { intros m' Hm'. apply elem_of_cons in Hm' as [->|Hm'].
    - vm_compute. eauto.
    - inversion Hm'. }
  destruct (X12_failed_call_caches_partial_list "_js_dist" "lib_b"
              ["lib_a"] [] s (or_introl eq_refl) Hloaded eq_refl)
    as (Hraise & Hhit & _).
  split; [reflexivity|]. split; [exact Hraise|].
  apply Hhit. discriminate.
Defined.

(** The same registry iterated the other way round: the missing module
    comes first, nothing is cached, and the next call raises again. *)
Example unloaded_library_other_order :
  let s1 := (get_resources "_js_dist" ["lib_b"; "lib_a"] unloaded_library).2 in
  (get_resources "_js_dist" ["lib_b"; "lib_a"] unloaded_library).1
  = inr (KeyError (Some "lib_b"))
  /\ __dist_cache s1 !! "_js_dist" = Some []
  /\ (get_resources "_js_dist" ["lib_b"; "lib_a"] s1).1
     = inr (KeyError (Some "lib_b")).
Proof. repeat split. Qed.

Lemma extend_from_frame (name : string) (todo : list string) (s : state) :
  registry (extend_from name todo s).2 = registry s
  /\ sys_modules (extend_from name todo s).2 = sys_modules s.
Proof.
  revert s. induction todo as [|m rest IH]; intros s; [split; reflexivity|].
  cbn [extend_from]. destruct (sys_modules s !! m); [|split; reflexivity].
  destruct (IH (set_cache s
                  (<[name := default [] (__dist_cache s !! name)
                             ++ default [] (g !! name)]> (__dist_cache s))))
    as [-> ->].
  split; reflexivity.
Qed.

(** X13: whatever it returns or raises, and in whatever order it iterates
    the registry, a call of [get_resources] changes neither the registry
    nor [sys.modules], nor what is cached under any other name. *)
Theorem X13_get_resources_frame (name other : string) (order : list string)
    (s : state) :
  let s1 := (get_resources name order s).2 in
  registry s1 = registry s
  /\ sys_modules s1 = sys_modules s
  /\ (other <> name -> __dist_cache s1 !! other = __dist_cache s !! other).
Proof.
  intros s1. subst s1. split; [|split].
  - unfold get_resources, compute_resources.
    destruct (__dist_cache s !! name) as [[|r cached]|];
      try reflexivity;
      exact (proj1 (extend_from_frame name _
                      (set_cache s (<[name := []]> (__dist_cache s))))).
  - unfold get_resources, compute_resources.
    destruct (__dist_cache s !! name) as [[|r cached]|];
      try reflexivity;
      exact (proj2 (extend_from_frame name _
                      (set_cache s (<[name := []]> (__dist_cache s))))).
  - apply get_resources_other.
Qed.
End registry.

(** ** The resource extractor *)

(** X14: the extraction is idempotent: run again on the store it left, it
    returns the same list and leaves every dict as it found it. *)
Theorem X14_extraction_idempotent (self : Resources) (h : store) (r : nat) :
  let first := get_inferred_resources self h in
  let second := get_inferred_resources self first.2 in
  second.1 = first.1 /\ second.2 r = first.2 r.
Proof.
  intros first second. subst first second.
  rewrite !get_inferred_resources_collected. cbn [fst snd].
  split; [reflexivity|].
  rewrite (tag_all_lookup _ _ (tag_all _ _ _)), tag_all_lookup.
  destruct (last_tag _ _ r); [apply insert_insert_eq|reflexivity].
Qed.

(** X15: the extraction writes nothing but the [namespace] key: every
    other key of every dict keeps its value, or its absence. *)
Theorem X15_extraction_writes_namespace_only (self : Resources) (h : store)
    (r : nat) (key : string) :
  key <> "namespace" ->
  (get_inferred_resources self h).2 r !! key = h r !! key.
Proof.
  intros Hkey. rewrite get_inferred_resources_collected. cbn [snd].
  rewrite tag_all_lookup.
  destruct (last_tag _ _ r); [|reflexivity].
  apply lookup_insert_ne. congruence.
Qed.

Lemma X15_extraction_writes_namespace_only_witness :
  let h : store := fun _ => {[ "relative_package_path" := "bundle.js" ]} in
  (get_inferred_resources two_libraries h).2 0 !! "relative_package_path"
  = Some "bundle.js".
Proof.
  intros h.
  rewrite (X15_extraction_writes_namespace_only two_libraries h 0
             "relative_package_path"); [reflexivity|discriminate].
Defined.

Lemma first_per_namespace_seen (seen : list string) (walk : list Component) :
  Forall (fun d => _namespace d ∈ seen) walk ->
  first_per_namespace seen walk = [].
Proof.
  induction 1 as [|d walk Hd _ IH]; [reflexivity|].
  cbn [first_per_namespace]. rewrite decide_True by exact Hd. exact IH.
Qed.

(** X16: the list of the root always comes first in what the extractor
    returns; and when every descendant has the namespace of the root, the
    list of the root is all that it returns, whatever lists the
    descendants declare. *)
Theorem X16_root_list_first (self : Resources) (h : store) (l : list nat) :
  (get_inferred_resources self h).1 = inl l ->
  declared (resource_name self) (layout self) `prefix_of` l
  /\ (Forall (fun d => _namespace d = _namespace (layout self))
        (descendants (layout self)) ->
      l = declared (resource_name self) (layout self)).
Proof.
  rewrite get_inferred_resources_collected. cbn [fst].
  destruct (until_error_prefix label_error (descendants (layout self)))
    as [_ Hall].
  fold (walked (layout self)) in Hall.
  destruct (walked (layout self)) as [nodes [e|]]; [discriminate|].
  cbn [fst snd] in *. rewrite (Hall eq_refl). intros [= <-].
  split.
  - apply prefix_app_r. reflexivity.
  - intros Hsame. rewrite first_per_namespace_seen.
    + apply app_nil_r.
    + eapply Forall_impl; [exact Hsame|].
      intros d ->. cbn. apply list_elem_of_here.
Qed.

Lemma X16_root_list_first_witness :
  (get_inferred_resources one_namespace (fun _ => ∅)).1 = inl [0; 1]
  /\ Forall (fun d => _namespace d = _namespace (layout one_namespace))
       (descendants (layout one_namespace))
  /\ (declared "_js_dist" <$> descendants (layout one_namespace))
     = [[5]; [6]]
  /\ [0; 1] = declared (resource_name one_namespace) (layout one_namespace).
Proof.
  assert (Hns : Forall (fun d => _namespace d
                                 = _namespace (layout one_namespace))
                  (descendants (layout one_namespace)))
    by (repeat constructor).
  split; [reflexivity|]. split; [exact Hns|]. split; [reflexivity|].
  apply (X16_root_list_first one_namespace (fun _ => ∅) [0; 1]);
    [reflexivity|exact Hns].
Defined.

(** ** Component metadata *)

Example filter_props_docstring :
  filter_props example_props
  = inl [("prop1", mk_prop_meta (Some (mk_type_object (Some "bool")))
                     (Some (mk_flow_object None None)));
         ("children", prop_of_type "node");
         ("data-*", prop_of_type "string")].
Proof. reflexivity. Qed.

Example parse_wildcards_example :
  parse_wildcards example_props = ["data-"].
Proof. reflexivity. Qed.

Example reorder_props_example :
  (reorder_props example_props).1.*1
  = ["children"; "prop1"; "prop2"; "prop3"; "data-*"].
Proof. reflexivity. Qed.

Lemma dict_get_remove_ne {A : Type} (k k' : string) (d : list (string * A)) :
  k' <> k -> dict_get k' (dict_remove k d) = dict_get k' d.
Proof.
  intros Hne. induction d as [|[k0 v] d IH]; [reflexivity|].
  unfold dict_remove in *. rewrite filter_cons. cbn [fst dict_get].
  destruct (decide (k0 <> k)) as [Hk0|Hk0]; cbn [dict_get].
  - rewrite IH. reflexivity.
  - rewrite IH. rewrite decide_False; [reflexivity|].
    intros ->. apply Hk0. congruence.
Qed.

Lemma dict_get_remove_eq {A : Type} (k : string) (d : list (string * A)) :
  dict_get k (dict_remove k d) = None.
Proof.
  induction d as [|[k0 v] d IH]; [reflexivity|].
  unfold dict_remove in *. rewrite filter_cons. cbn [fst].
  destruct (decide (k0 <> k)) as [Hk0|Hk0]; [|exact IH].
  cbn [dict_get]. rewrite decide_False by exact Hk0. exact IH.
Qed.

Lemma dict_remove_twice {A : Type} (k : string) (d : list (string * A)) :
  dict_remove k (dict_remove k d) = dict_remove k d.
Proof.
  induction d as [|[k0 v] d IH]; [reflexivity|].
  unfold dict_remove in *. rewrite filter_cons. cbn [fst].
  destruct (decide (k0 <> k)) as [Hk0|Hk0]; [|exact IH].
  rewrite filter_cons. cbn [fst]. rewrite decide_True by exact Hk0.
  rewrite IH. reflexivity.
Qed.

Lemma dict_get_keys {A : Type} (k : string) (d : list (string * A)) :
  k ∈ d.*1 <-> is_Some (dict_get k d).
Proof.
  induction d as [|[k0 v] d IH].
  - cbn. split; [intros H; inversion H|intros [? H]; discriminate].
  - cbn [fmap list_fmap fst dict_get]. rewrite elem_of_cons.
    destruct (decide (k0 = k)) as [->|Hne].
    + split; eauto.
    + rewrite <- IH. split; [intros [?|?]; congruence || assumption|auto].
Qed.

Lemma dict_remove_keys {A : Type} (k k' : string) (d : list (string * A)) :
  k' ∈ (dict_remove k d).*1 <-> k' ∈ d.*1 /\ k' <> k.
Proof.
  rewrite !dict_get_keys.
  destruct (decide (k' = k)) as [->|Hne].
  - rewrite dict_get_remove_eq. split; [intros [? ?]; discriminate|tauto].
  - rewrite dict_get_remove_ne by exact Hne. tauto.
Qed.

Lemma dict_remove_NoDup {A : Type} (k : string) (d : list (string * A)) :
  NoDup d.*1 -> NoDup (dict_remove k d).*1.
Proof.
  induction d as [|[k0 v] d IH]; intros Hd; [exact Hd|].
  cbn in Hd. apply NoDup_cons in Hd as [Hk0 Hd].
  change (dict_remove k ((k0, v) :: d))
    with (filter (fun kv : string * A => kv.1 <> k) ((k0, v) :: d)).
  rewrite filter_cons. cbn [fst]. fold (dict_remove k d).
  destruct (decide (k0 <> k)); [|auto].
  cbn. apply NoDup_cons. split; [|auto].
  rewrite dict_remove_keys. tauto.
Qed.

(** X17: [reorder_props] returns the same dict with [children] moved to
    the front: every key keeps its value, the other keys keep their order,
    [children] comes first when it is there, and the keys stay distinct. *)
Theorem X17_reorder_props_children_first {A : Type}
    (props : list (string * A)) :
  let reordered := (reorder_props props).1 in
  (forall k, dict_get k reordered = dict_get k props)
  /\ dict_remove "children" reordered = dict_remove "children" props
  /\ ("children" ∈ props.*1 -> head reordered.*1 = Some "children")
  /\ (NoDup props.*1 -> NoDup reordered.*1).
Proof.
  unfold reorder_props.
  destruct (dict_get "children" props) as [v|] eqn:Hget; cbn [fst].
  - split; [|split; [|split]].
    + intros k. cbn [dict_get].
      destruct (decide ("children" = k)) as [<-|Hne]; [auto|].
      apply dict_get_remove_ne. congruence.
    + change (dict_remove "children"
                (("children", v) :: dict_remove "children" props))
        with (filter (fun kv : string * A => kv.1 <> "children")
                (("children", v) :: dict_remove "children" props)).
      rewrite filter_cons_False by (cbn; auto).
      apply dict_remove_twice.
    + reflexivity.
    + intros Hd. cbn. apply NoDup_cons. split.
      * rewrite dict_remove_keys. tauto.
      * apply dict_remove_NoDup. exact Hd.
  - split; [|split; [|split]]; auto.
    intros Hin. apply dict_get_keys in Hin as [v Hv]. congruence.
Qed.

(** X18: [reorder_props] is not pure.  When [children] is a key, the call
    pops it from the dict it was given (the other keys keep their
    values), so a second call on that same dict finds no [children] and
    returns the dict as it is now.  A call on the dict returned returns an
    equal dict, and pops [children] from the one it was given in turn. *)
Theorem X18_reorder_props_pops_children {A : Type}
    (props : list (string * A)) (v : A) :
  dict_get "children" props = Some v ->
  let reordered := (reorder_props props).1 in
  let given := (reorder_props props).2 in
  dict_get "children" given = None
  /\ (forall k, k <> "children" -> dict_get k given = dict_get k props)
  /\ reorder_props given = (given, given)
  /\ reorder_props reordered = (reordered, given).
Proof.
  intros Hget.
  assert (Hcall : reorder_props props
                  = (("children", v) :: dict_remove "children" props,
                     dict_remove "children" props))
    by (unfold reorder_props; rewrite Hget; reflexivity).
  cbv zeta. rewrite Hcall. cbn [fst snd].
  split; [apply dict_get_remove_eq|].
  split; [intros k Hk; apply dict_get_remove_ne; exact Hk|].
  split.
  - unfold reorder_props. rewrite dict_get_remove_eq. reflexivity.
  - unfold reorder_props. cbn [dict_get].
    rewrite decide_True by reflexivity.
    change (dict_remove "children"
              (("children", v) :: dict_remove "children" props))
      with (filter (fun kv : string * A => kv.1 <> "children")
              (("children", v) :: dict_remove "children" props)).
    rewrite filter_cons_False by (cbn; auto).
    fold (dict_remove "children" (dict_remove "children" props)).
    rewrite dict_remove_twice. reflexivity.
Qed.

Lemma X18_reorder_props_pops_children_witness :
  dict_get "children" example_props = Some (prop_of_type "node")
  /\ (reorder_props example_props).1.*1
     = ["children"; "prop1"; "prop2"; "prop3"; "data-*"]
  /\ (reorder_props example_props).2.*1
     = ["prop1"; "prop2"; "prop3"; "data-*"]
  /\ reorder_props (reorder_props example_props).1
     = ((reorder_props example_props).1, (reorder_props example_props).2).
Proof.
  split; [reflexivity|]. split; [reflexivity|]. split; [reflexivity|].
  apply (X18_reorder_props_pops_children example_props
           (prop_of_type "node")).
  reflexivity.
Defined.

Lemma dict_remove_notin {A : Type} (k : string) (d : list (string * A)) :
  k ∉ d.*1 -> dict_remove k d = d.
Proof.
  induction d as [|[k0 v] d IH]; intros Hk; [reflexivity|].
  cbn in Hk. apply not_elem_of_cons in Hk as [Hne Hk].
  unfold dict_remove in *. rewrite filter_cons_True by (cbn; congruence).
  rewrite IH by exact Hk. reflexivity.
Qed.

Lemma NoDup_keys_middle {A : Type} (k : string) (a : A)
    (done todo : list (string * A)) :
  NoDup (done ++ (k, a) :: todo).*1 ->
  (k ∉ done.*1) /\ (k ∉ todo.*1) /\ NoDup (done ++ todo).*1.
Proof.
  rewrite !fmap_app, fmap_cons. cbn [fst].
  rewrite !NoDup_app, NoDup_cons.
  intros (Hdone & Hsep & Hk & Htodo).
  split; [|split; [exact Hk|]].
  - intros Hin. apply (Hsep _ Hin). left.
  - split; [exact Hdone|]. split; [|exact Htodo].
    intros x Hx Hx'. apply (Hsep _ Hx). right. exact Hx'.
Qed.

Lemma dict_pop_here {A : Type} (k : string) (a : A)
    (done todo : list (string * A)) :
  NoDup (done ++ (k, a) :: todo).*1 ->
  dict_pop k (done ++ (k, a) :: todo) = inl (done ++ todo).
Proof.
  intros Hd. apply NoDup_keys_middle in Hd as (Hdone & Htodo & _).
  unfold dict_pop. rewrite decide_True.
  - f_equal. unfold dict_remove. rewrite filter_app.
    rewrite filter_cons_False by (cbn; auto).
    fold (dict_remove k done). fold (dict_remove k todo).
    rewrite !dict_remove_notin by assumption. reflexivity.
  - rewrite fmap_app, fmap_cons. set_solver.
Qed.

Lemma dict_pop_gone {A : Type} (k : string) (a : A)
    (done todo : list (string * A)) :
  NoDup (done ++ (k, a) :: todo).*1 ->
  dict_pop k (done ++ todo) = inr (KeyError (Some k)).
Proof.
  intros Hd. apply NoDup_keys_middle in Hd as (Hdone & Htodo & _).
  unfold dict_pop. rewrite decide_False; [reflexivity|].
  rewrite fmap_app. set_solver.
Qed.

(** The loop of [filter_props], after the turns on [done] have kept all of
    it and with [todo] still to come. *)
Lemma filter_props_loop_filter (todo done : list (string * prop_meta)) :
  NoDup (done ++ todo).*1 ->
  filter_props_loop todo (done ++ todo)
  = match head (omap turn_error todo) with
    | Some e => inr e
    | None => inl (done ++ filter (fun item => kept item = true) todo)
    end.
Proof.
  revert done. induction todo as [|[k a] todo IH]; intros done Hd.
  - reflexivity.
  - pose proof (dict_pop_here _ _ _ _ Hd) as Hpop.
    pose proof (dict_pop_gone _ _ _ _ Hd) as Hgone.
    pose proof (NoDup_keys_middle _ _ _ _ Hd) as (_ & _ & Hd').
    assert (Hkeep : filter_props_loop todo (done ++ (k, a) :: todo)
                    = match head (omap turn_error todo) with
                      | Some e => inr e
                      | None =>
                          inl (done ++ (k, a)
                                 :: filter (fun item => kept item = true) todo)
                      end).
    { replace (done ++ (k, a) :: todo) with ((done ++ [(k, a)]) ++ todo)
        by (rewrite <- app_assoc; reflexivity).
      rewrite IH by (rewrite <- app_assoc; exact Hd).
      rewrite <- app_assoc. reflexivity. }
    specialize (IH done Hd').
    assert (Hhead : head (omap turn_error ((k, a) :: todo))
                    = match turn_error (k, a) with
                      | Some e => Some e
                      | None => head (omap turn_error todo)
                      end)
      by (cbn; destruct (turn_error (k, a)); reflexivity).
    rewrite Hhead. clear Hhead.
    assert (Hfilter : filter (fun item => kept item = true) ((k, a) :: todo)
                      = if kept (k, a)
                        then (k, a) :: filter (fun item => kept item = true) todo
                        else filter (fun item => kept item = true) todo).
    { rewrite filter_cons. destruct (kept (k, a)).
      - rewrite decide_True by reflexivity. reflexivity.
      - rewrite decide_False by discriminate. reflexivity. }
    rewrite Hfilter. clear Hfilter.
    cbn [filter_props_loop].
    set (errors := head (omap turn_error todo)) in *.
    set (others := filter (fun item => kept item = true) todo) in *.
    unfold filter_props_step, turn_error, kept, unnamed, untyped,
      not_passable, subscript_name.
    cbn [fst snd].
    destruct a as [[[[arg_type|]]|] [[[arg_type_name|] ft]|]];
      cbn [meta_type meta_flowType type_object_name flow_name flow_type];
      repeat (case_bool_decide || case_decide);
      cbn [negb andb orb head];
      rewrite ?Hpop, ?Hgone; subst;
      rewrite ?Hpop, ?Hgone;
      try congruence;
      try (rewrite decide_True by reflexivity);
      try (rewrite decide_False by congruence);
      cbn [negb andb orb head];
      try reflexivity;
      try (rewrite ?IH, ?Hkeep; destruct errors; reflexivity).
Qed.

Lemma no_turn_error (props : list (string * prop_meta)) :
  head (omap turn_error props) = None
  <-> Forall (fun item => turn_error item = None) props.
Proof.
  induction props as [|item props IH]; [split; [constructor|reflexivity]|].
  cbn [omap list_omap]. rewrite Forall_cons.
  destruct (turn_error item) as [e|]; cbn [head].
  - split; [discriminate|intros [? _]; discriminate].
  - fold (omap turn_error props). rewrite IH. tauto.
Qed.

Lemma kept_filter_stable (props : list (string * prop_meta)) :
  Forall (fun item => kept item = true) props ->
  filter (fun item => kept item = true) props = props.
Proof.
  induction 1 as [|item props Hitem _ IH]; [reflexivity|].
  rewrite filter_cons_True by exact Hitem. rewrite IH. reflexivity.
Qed.

(** X19: on a dict of metadata, [filter_props] raises the exception of the
    first prop whose turn raises: [KeyError('name')] for a [type] (or, with
    no [type], a [flowType]) that has no name, [KeyError('dashEvents')] for
    a [dashEvents] that was popped as not passable and is popped again.
    With no such prop it returns, in their order, the props that have a
    [type] or a [flowType], can be passed, and are not [dashEvents]. *)
Theorem X19_filter_props_filters (props : list (string * prop_meta)) :
  NoDup props.*1 ->
  filter_props props
  = match head (omap turn_error props) with
    | Some e => inr e
    | None => inl (filter (fun item => kept item = true) props)
    end.
Proof.
  intros Hd. unfold filter_props.
  exact (filter_props_loop_filter props [] Hd).
Qed.

Lemma X19_filter_props_filters_witness :
  NoDup events_as_function.*1
  /\ filter_props events_as_function
     = match head (omap turn_error events_as_function) with
       | Some e => inr e
       | None =>
           inl (filter (fun item => kept item = true) events_as_function)
       end.
Proof.
  split; [vm_compute; repeat constructor; set_solver|].
  apply (X19_filter_props_filters events_as_function).
  vm_compute. repeat constructor; set_solver.
Defined.

(** X20: what [filter_props] returns holds no [dashEvents], no prop
    without [type] and [flowType] and no prop that cannot be passed; it is
    a sub-sequence of the metadata given, and filtering it again returns
    it unchanged. *)
Theorem X20_filter_props_result (props filtered : list (string * prop_meta)) :
  NoDup props.*1 ->
  filter_props props = inl filtered ->
  ("dashEvents" ∉ filtered.*1)
  /\ (forall arg_name arg, (arg_name, arg) ∈ filtered ->
        untyped arg = false /\ not_passable arg = false)
  /\ sublist filtered props
  /\ filter_props filtered = inl filtered.
Proof.
  intros Hd Hcall.
  unfold filter_props in *.
  pose proof (filter_props_loop_filter props [] Hd) as Hloop.
  cbn [app] in Hloop. rewrite Hloop in Hcall. clear Hloop.
  destruct (head (omap turn_error props)) eqn:Herr; [discriminate|].
  cbn [app] in Hcall. injection Hcall as <-.
  apply no_turn_error in Herr. rewrite Forall_forall in Herr.
  assert (Hkept : Forall (fun item => kept item = true)
                    (filter (fun item => kept item = true) props)).
  { apply Forall_forall. intros item Hitem.
    apply list_elem_of_filter in Hitem as [Hitem _]. exact Hitem. }
  assert (Hsub : sublist (filter (fun item => kept item = true) props) props)
    by apply sublist_filter.
  split; [|split; [|split]].
  - intros Hin. apply list_elem_of_fmap in Hin as ([k a] & Hk & Hin).
    cbn in Hk. subst k.
    rewrite Forall_forall in Hkept. specialize (Hkept _ Hin).
    unfold kept in Hkept. cbn [fst] in Hkept.
    rewrite bool_decide_true in Hkept by reflexivity.
    rewrite andb_false_r in Hkept. discriminate.
  - intros k a Hin.
    rewrite Forall_forall in Hkept. specialize (Hkept _ Hin).
    unfold kept in Hkept. cbn [fst snd] in Hkept.
    destruct (untyped a), (not_passable a); cbn in Hkept;
      split; congruence.
  - exact Hsub.
  - assert (Hd' : NoDup (filter (fun item => kept item = true) props).*1).
    { eapply sublist_NoDup; [exact Hd|apply fmap_sublist; exact Hsub]. }
    pose proof (filter_props_loop_filter _ [] Hd') as Hloop.
    cbn [app] in Hloop. rewrite Hloop. clear Hloop.
    rewrite (kept_filter_stable _ Hkept).
    replace (head (omap turn_error
                     (filter (fun item => kept item = true) props)))
      with (@None exn); [reflexivity|].
    symmetry. apply no_turn_error. apply Forall_forall.
    intros item Hitem. apply Herr.
    apply list_elem_of_filter in Hitem as [_ Hitem]. exact Hitem.
Qed.

Lemma X20_filter_props_result_witness :
  NoDup example_props.*1
  /\ filter_props example_props
     = inl [("prop1", mk_prop_meta (Some (mk_type_object (Some "bool")))
                        (Some (mk_flow_object None None)));
            ("children", prop_of_type "node");
            ("data-*", prop_of_type "string")]
  /\ "dashEvents" ∉ fst <$>
       [("prop1", mk_prop_meta (Some (mk_type_object (Some "bool")))
                    (Some (mk_flow_object None None)));
        ("children", prop_of_type "node");
        ("data-*", prop_of_type "string")].
Proof.
  assert (Hd : NoDup example_props.*1)
    by (vm_compute; repeat constructor; set_solver).
  split; [exact Hd|]. split; [reflexivity|].
  apply (X20_filter_props_result example_props _ Hd).
  reflexivity.
Defined.

(** X21: the prefixes that [parse_wildcards] pulls out of the metadata
    make a component accept as wildcard properties the names that start
    with [data-], when the metadata has the key [data-*], and those that
    start with [aria-], when it has [aria-*], and no others. *)
Theorem X21_parse_wildcards_accepts {A : Type} (props : list (string * A))
    (self : Component) (k : string) :
  _valid_wildcard_attributes self = parse_wildcards props ->
  is_wildcard self k
  = (bool_decide ("data-*" ∈ props.*1) && String.prefix "data-" k)
    || (bool_decide ("aria-*" ∈ props.*1) && String.prefix "aria-" k).
Proof.
  intros Hw. unfold is_wildcard. rewrite Hw.
  unfold parse_wildcards. cbn [foldl].
  destruct (decide ("data-*" ∈ props.*1)) as [Hdata|Hdata],
           (decide ("aria-*" ∈ props.*1)) as [Haria|Haria];
    rewrite ?(bool_decide_true _ Hdata), ?(bool_decide_false _ Hdata),
            ?(bool_decide_true _ Haria), ?(bool_decide_false _ Haria);
    cbn; rewrite ?orb_false_r; reflexivity.
Qed.

Lemma X21_parse_wildcards_accepts_witness :
  _valid_wildcard_attributes (scenario_A false)
  = parse_wildcards wildcard_props
  /\ is_wildcard (scenario_A false) "data-role"
     = (bool_decide ("data-*" ∈ wildcard_props.*1)
        && String.prefix "data-" "data-role")
       || (bool_decide ("aria-*" ∈ wildcard_props.*1)
           && String.prefix "aria-" "data-role").
Proof.
  split; [reflexivity|].
  apply (X21_parse_wildcards_accepts wildcard_props (scenario_A false)).
  reflexivity.
Defined.

Lemma dict_get_elem {A : Type} (k : string) (v : A)
    (d : list (string * A)) :
  dict_get k d = Some v -> (k, v) ∈ d.
Proof.
  induction d as [|[k0 v0] d IH]; [discriminate|].
  cbn [dict_get]. destruct (decide (k0 = k)) as [->|_].
  - intros [= ->]. left.
  - intros Hget. right. auto.
Qed.

Lemma dict_get_filter {A : Type} (P : string * A -> bool) (k : string)
    (d : list (string * A)) :
  NoDup d.*1 ->
  dict_get k (filter (fun item => P item = true) d)
  = match dict_get k d with
    | Some v => if P (k, v) then Some v else None
    | None => None
    end.
Proof.
  induction d as [|[k0 v0] d IH]; intros Hd; [reflexivity|].
  cbn in Hd. apply NoDup_cons in Hd as [Hk0 Hd].
  specialize (IH Hd). cbn [dict_get].
  destruct (decide (k0 = k)) as [->|Hne].
  - destruct (P (k, v0)) eqn:HP.
    + rewrite filter_cons_True by exact HP. cbn [dict_get].
      rewrite decide_True by reflexivity. reflexivity.
    + rewrite filter_cons_False by congruence.
      rewrite IH.
      destruct (dict_get k d) as [v|] eqn:Hget; [|reflexivity].
      exfalso. apply Hk0. apply dict_get_keys. eauto.
  - destruct (P (k0, v0)) eqn:HP.
    + rewrite filter_cons_True by exact HP. cbn [dict_get].
      rewrite decide_False by exact Hne. exact IH.
    + rewrite filter_cons_False by congruence. exact IH.
Qed.

Lemma dict_remove_filter {A : Type} (P : string * A -> bool) (k : string)
    (d : list (string * A)) :
  dict_remove k (filter (fun item => P item = true) d)
  = filter (fun item => P item = true) (dict_remove k d).
Proof.
  unfold dict_remove.
  induction d as [|[k0 v0] d IH]; [reflexivity|].
  rewrite (filter_cons (fun item => P item = true)),
          (filter_cons (fun kv : string * A => kv.1 <> k)).
  cbn [fst].
  destruct (decide (P (k0, v0) = true)), (decide (k0 <> k));
    rewrite ?filter_cons; cbn [fst];
    rewrite ?decide_True by assumption;
    rewrite ?decide_False by assumption;
    rewrite ?IH; reflexivity.
Qed.

(** X22: [create_docstring] filters the reordered metadata.  When
    [filter_props] returns on the metadata, it also returns on the
    metadata reordered, and what it returns then is the filtered metadata
    reordered: filtering and moving [children] to the front commute. *)
Theorem X22_filter_reorder_commute
    (props filtered : list (string * prop_meta)) :
  NoDup props.*1 ->
  filter_props props = inl filtered ->
  filter_props (reorder_props props).1 = inl (reorder_props filtered).1.
Proof.
  intros Hd Hcall. unfold filter_props in *.
  pose proof (filter_props_loop_filter props [] Hd) as Hloop.
  cbn [app] in Hloop. rewrite Hloop in Hcall. clear Hloop.
  destruct (head (omap turn_error props)) eqn:Herr; [discriminate|].
  injection Hcall as <-.
  apply no_turn_error in Herr. rewrite Forall_forall in Herr.
  unfold reorder_props.
  rewrite (dict_get_filter kept "children" props Hd).
  destruct (dict_get "children" props) as [v|] eqn:Hget; cbn [fst].
  - assert (Hd' : NoDup (("children", v)
                           :: dict_remove "children" props).*1).
    { cbn. apply NoDup_cons. split.
      - rewrite dict_remove_keys. tauto.
      - apply dict_remove_NoDup. exact Hd. }
    pose proof (filter_props_loop_filter _ [] Hd') as Hloop.
    cbn [app] in Hloop. rewrite Hloop. clear Hloop.
    replace (head (omap turn_error
                     (("children", v) :: dict_remove "children" props)))
      with (@None exn).
    + destruct (kept ("children", v)) eqn:Hkept; cbn [fst].
      * rewrite filter_cons_True by exact Hkept.
        rewrite dict_remove_filter. reflexivity.
      * rewrite filter_cons_False by congruence.
        rewrite <- dict_remove_filter.
        rewrite dict_remove_notin; [reflexivity|].
        rewrite dict_get_keys.
        rewrite (dict_get_filter kept "children" props Hd), Hget, Hkept.
        intros [? ?]; discriminate.
    + symmetry. apply no_turn_error. apply Forall_forall.
      intros item Hitem. apply Herr.
      apply elem_of_cons in Hitem as [->|Hitem].
      * apply dict_get_elem. exact Hget.
      * unfold dict_remove in Hitem.
        apply list_elem_of_filter in Hitem as [_ Hitem]. exact Hitem.
  - pose proof (filter_props_loop_filter props [] Hd) as Hloop.
    cbn [app] in Hloop. rewrite Hloop. clear Hloop.
    replace (head (omap turn_error props)) with (@None exn); [reflexivity|].
    symmetry. apply no_turn_error. apply Forall_forall. exact Herr.
Qed.

Lemma X22_filter_reorder_commute_witness :
  NoDup example_props.*1
  /\ filter_props example_props
     = inl [("prop1", mk_prop_meta (Some (mk_type_object (Some "bool")))
                        (Some (mk_flow_object None None)));
            ("children", prop_of_type "node");
            ("data-*", prop_of_type "string")]
  /\ filter_props (reorder_props example_props).1
     = inl (reorder_props
              [("prop1", mk_prop_meta (Some (mk_type_object (Some "bool")))
                           (Some (mk_flow_object None None)));
               ("children", prop_of_type "node");
               ("data-*", prop_of_type "string")]).1.
Proof.
  assert (Hd : NoDup example_props.*1)
    by (vm_compute; repeat constructor; set_solver).
  split; [exact Hd|]. split; [reflexivity|].
  apply (X22_filter_reorder_commute example_props _ Hd).
  reflexivity.
Defined.

(** ** Instances of the conditional parts *)

Lemma X13_get_resources_frame_witness :
  "_css_dist" <> "_js_dist"
  /\ ComponentRegistry.__dist_cache
       (ComponentRegistry.get_resources "_js_dist" ["lib_a"] one_library).2
     !! "_css_dist"
     = ComponentRegistry.__dist_cache one_library !! "_css_dist".
Proof.
  split; [discriminate|].
  apply (X13_get_resources_frame "_js_dist" "_css_dist" ["lib_a"]
           one_library).
  discriminate.
Defined.

Lemma X17_reorder_props_children_first_witness :
  "children" ∈ example_props.*1
  /\ NoDup example_props.*1
  /\ head (reorder_props example_props).1.*1 = Some "children"
  /\ NoDup (reorder_props example_props).1.*1.
Proof.
  assert (Hin : "children" ∈ example_props.*1) by (vm_compute; set_solver).
  assert (Hd : NoDup example_props.*1)
    by (vm_compute; repeat constructor; set_solver).
  split; [exact Hin|]. split; [exact Hd|].
  destruct (X17_reorder_props_children_first example_props)
    as (_ & _ & Hhead & Hkeys).
  split; [exact (Hhead Hin)|exact (Hkeys Hd)].
Defined.
